(** * pulp_auto: the connection handle ([pulp.py]) and task polling ([task.py])

    A shallow embedding of [Pulp.send], [Pulp.is_ok], [Pulp.asserting],
    [Pulp.async], [AbstractTask.wait], [Task.wait_for_response] and
    [Task.wait_for_report], with the properties the specification states
    about them. *)

From Stdlib Require Import ZArith Lia.
From stdpp Require Import base option list strings gmap.

Open Scope Z_scope.

(** ** Values *)

(** JSON documents, as [response.json()] yields them. *)
#[local] Unset Elimination Schemes.
Inductive json :=
| JNull
| JBool (b : bool)
| JNum (n : Z)
| JStr (s : string)
| JList (l : list json)
| JDict (d : list (string * json)).
#[local] Set Elimination Schemes.

(** [TaskDetails] keeps the server's representation in the dict [self.data]. *)
Record Task := mkTask { data : gmap string json }.

(** The exceptions the two modules raise or let through. [TaskFailure] and
    [TaskTimeoutError] derive from [TaskError], which derives from
    [AssertionError] and saves the task ([task.py] 6-21). *)
Inductive exn :=
| RuntimeError (msg : string)
| AssertionError (msg : string)
| TaskFailure (error : json) (task : Task)
| TaskTimeoutError (timeout : Z) (task : Task)
| TypeError
| AttributeError
| NameError (name : string)
| KeyError (key : string)
| OtherError (msg : string).

(** [isinstance(e, AssertionError)], what [except AssertionError] tests. *)
Definition is_AssertionError (e : exn) : bool :=
  match e with
  | AssertionError _ | TaskFailure _ _ | TaskTimeoutError _ _ => true
  | _ => false
  end.

(** ** What lies outside the interpreter

    [World] is the state of everything the code reaches through the requests
    session and the [time] module: the connection, the server behind it and
    the wall clock (in milliseconds). [session_send w rq verify] is
    [session.send(rq, verify=verify)], with [None] when the keyword is not
    passed. *)
Class Transport := {
  Auth : Type;
  PreparedRequest : Type;
  Response : Type;
  Key : Type;
  World : Type;
  status_code : Response -> Z;
  session_send : World -> PreparedRequest -> option bool -> World * (exn + Response);
  format_preprequest : PreparedRequest -> string;
  format_response : Response -> string;
  time_time : World -> Z;
  time_sleep : Z -> World -> World
}.

Section Connection.
Context `{Transport}.

(** A request is a callable that accepts url and auth ([pulp.py] 59). *)
Definition Request : Type := string -> Auth -> PreparedRequest.

(** [self.last_request]: [None], one prepared request, or the tuple of the
    requests queued by an async context. *)
Inductive LastRequest :=
| QNone
| QOne (rq : PreparedRequest)
| QTuple (q : list PreparedRequest).

(** [self.last_response]: [None], one response, or the tuple of the values of
    the jobs of an async context; the value of a job that has not finished is
    [None]. *)
Inductive LastResponse :=
| RNone
| ROne (r : Response)
| RTuple (rs : list (option Response)).

(** The attributes of a [Pulp] instance ([pulp.py] 32-50). The session and the
    semaphore are handles: the state of the first is in the [World], and the
    second is free whenever a method is entered and released on every way out
    of its [with] block, so that each block runs as a whole.
    [check_function_attr] is the instance attribute that [asserting] sets
    over the class attribute. *)
Record Pulp := mkPulp {
  url : string;
  auth : Auth;
  verify : bool;
  last_response : LastResponse;
  last_request : LastRequest;
  _asserting : bool;
  _async : bool;
  _pubkey : option Key;
  check_function_attr : option (Response -> bool)
}.

Definition set_last_response (v : LastResponse) (c : Pulp) : Pulp :=
  mkPulp (url c) (auth c) (verify c) v (last_request c)
         (_asserting c) (_async c) (_pubkey c) (check_function_attr c).

Definition set_last_request (v : LastRequest) (c : Pulp) : Pulp :=
  mkPulp (url c) (auth c) (verify c) (last_response c) v
         (_asserting c) (_async c) (_pubkey c) (check_function_attr c).

Definition set_asserting (v : bool) (c : Pulp) : Pulp :=
  mkPulp (url c) (auth c) (verify c) (last_response c) (last_request c)
         v (_async c) (_pubkey c) (check_function_attr c).

Definition set_async (v : bool) (c : Pulp) : Pulp :=
  mkPulp (url c) (auth c) (verify c) (last_response c) (last_request c)
         (_asserting c) v (_pubkey c) (check_function_attr c).

Definition set_check_function (v : Response -> bool) (c : Pulp) : Pulp :=
  mkPulp (url c) (auth c) (verify c) (last_response c) (last_request c)
         (_asserting c) (_async c) (_pubkey c) (Some v).

Definition set_url (v : string) (c : Pulp) : Pulp :=
  mkPulp v (auth c) (verify c) (last_response c) (last_request c)
         (_asserting c) (_async c) (_pubkey c) (check_function_attr c).

Definition set_auth (v : Auth) (c : Pulp) : Pulp :=
  mkPulp (url c) v (verify c) (last_response c) (last_request c)
         (_asserting c) (_async c) (_pubkey c) (check_function_attr c).

(** [Pulp.__init__] ([pulp.py] 32-43). *)
Definition Pulp_init (u : string) (a : Auth) (v : bool) (asserting : bool) : Pulp :=
  mkPulp u a v RNone QNone asserting false None None.

(** The class attribute [check_function] ([pulp.py] 30). *)
Definition Pulp_check_function (x : Response) : bool :=
  (200 <=? status_code x) && (status_code x <? 400).

(** [self.check_function]: the instance attribute when set, else the class's. *)
Definition check_function (c : Pulp) : Response -> bool :=
  default Pulp_check_function (check_function_attr c).

(** The attributes that [asserting] has no business with. *)
Definition other_attrs (c : Pulp)
    : string * Auth * bool * LastResponse * LastRequest * bool * option Key :=
  (url c, auth c, verify c, last_response c, last_request c, _async c, _pubkey c).

(** The interpreter state: one connection and the world. *)
Record Machine := mkMachine { pulp : Pulp; world : World }.

Definition set_pulp (c : Pulp) (m : Machine) : Machine := mkMachine c (world m).
Definition set_world (w : World) (m : Machine) : Machine := mkMachine (pulp m) w.

(** A statement: it changes the machine and returns or raises. *)
Definition M (A : Type) : Type := Machine -> Machine * (exn + A).

Definition ret {A} (a : A) : M A := fun m => (m, inr a).
Definition raise {A} (e : exn) : M A := fun m => (m, inl e).
Definition bind {A B} (x : M A) (k : A -> M B) : M B :=
  fun m => match x m with
           | (m', inr a) => k a m'
           | (m', inl e) => (m', inl e)
           end.

(** [try: body finally: fin], for a [fin] made of assignments. *)
Definition try_finally {A} (body : M A) (fin : Pulp -> Pulp) : M A :=
  fun m => match body m with (m', r) => (set_pulp (fin (pulp m')) m', r) end.

(** [Pulp.is_ok] ([pulp.py] 74-80). [reduce] folds from the left; [x and ...]
    does not call the check once [x] is false. The check is typed on
    responses: reaching a [None] entry of the tuple raises as the class's
    check does on [None.status_code]. *)
Definition is_ok_step (c : Pulp) (x : exn + bool) (y : option Response) : exn + bool :=
  match x with
  | inr true => match y with
                | Some r => inr (check_function c r)
                | None => inl AttributeError
                end
  | _ => x
  end.

Definition is_ok (c : Pulp) : exn + bool :=
  match last_response c with
  | RNone => inr true
  | RTuple rs => foldl (is_ok_step c) (inr true) rs
  | ROne r => inr (check_function c r)
  end.

Definition not_ok_message (rq : PreparedRequest) (r : Response) : string :=
  String.append "pulp was not OK:
" (String.append (format_preprequest rq) (format_response r)).

(** [Pulp.send] ([pulp.py] 58-72); the decorator [logged] writes to the log
    and nothing else. In async mode [+=] on anything but a tuple is a
    [TypeError]; the call returns [None]. *)
Definition send (request : Request) : M (option Response) :=
  fun m =>
    let c := pulp m in
    if _async c then
      match last_request c with
      | QTuple q =>
          (set_pulp (set_last_request (QTuple (q ++ [request (url c) (auth c)])) c) m,
           inr None)
      | _ => (m, inl TypeError)
      end
    else
      let rq := request (url c) (auth c) in
      let c1 := set_last_request (QOne rq) c in
      match session_send (world m) rq (Some (verify c1)) with
      | (w', inl e) => (mkMachine c1 w', inl e)
      | (w', inr last_resp) =>
          let c2 := set_last_response (ROne last_resp) c1 in
          if _asserting c2 then
            match is_ok c2 with
            | inr true => (mkMachine c2 w', inr (Some last_resp))
            | inr false => (mkMachine c2 w', inl (AssertionError (not_ok_message rq last_resp)))
            | inl e => (mkMachine c2 w', inl e)
            end
          else (mkMachine c2 w', inr (Some last_resp))
      end.

(** [Pulp.asserting] around a [with] body ([pulp.py] 82-95). *)
Definition asserting_enter (value : bool) (cf : option (Response -> bool)) (c : Pulp) : Pulp :=
  let c1 := set_asserting value c in
  match cf with
  | Some f => set_check_function f c1
  | None => c1
  end.

Definition asserting_exit (old_value : bool) (old_check_function : Response -> bool)
    (c : Pulp) : Pulp :=
  set_check_function old_check_function (set_asserting old_value c).

Definition asserting {A} (value : bool) (cf : option (Response -> bool)) (body : M A) : M A :=
  fun m =>
    let old_value := _asserting (pulp m) in
    let old_check_function := check_function (set_asserting value (pulp m)) in
    try_finally body (asserting_exit old_value old_check_function)
      (set_pulp (asserting_enter value cf (pulp m)) m).

(** *** The async context ([pulp.py] 97-121)

    [gevent.spawn(sender, request)] makes one job per queued request, in queue
    order; job [i] is the one of the [i]-th request. The semaphore lets one
    [sender] run at a time, so a run of the jobs is the order in which they
    get to run: [sched] lists the jobs that finish while [joinall] waits, in
    the order they finish. [joinall(jobs, timeout, raise_error=True)] follows
    gevent: without a timeout it waits for every job; with one it returns
    when the time is up, raising nothing for that; it re-raises the error of
    the first job that finished with one. All the jobs were spawned before
    [joinall] is entered: the jobs of the run that come behind a failing one
    have their turn all the same, what they return or raise is dropped. What
    a job left unfinished does to the world after [joinall] is over is not
    followed. *)
Definition sender (rq : PreparedRequest) (w : World) : World * (exn + Response) :=
  session_send w rq None.

Definition completions (timeout : option Z) (sched : list nat) (n : nat) : list nat :=
  match timeout with
  | None => sched ++ filter (fun i => i ∉ sched) (seq 0 n)
  | Some _ => sched
  end.

(** [vals] holds [job.value] of every job: [None] until the job has finished. *)
Fixpoint run_jobs (sched : list nat) (q : list PreparedRequest)
    (vals : list (option Response)) (w : World) : World * (exn + list (option Response)) :=
  match sched with
  | [] => (w, inr vals)
  | i :: sched' =>
      match q !! i with
      | None => run_jobs sched' q vals w
      | Some rq =>
          match sender rq w with
          | (w', inl e) => ((run_jobs sched' q vals w').1, inl e)
          | (w', inr r) => run_jobs sched' q (<[i := Some r]> vals) w'
          end
      end
  end.

Definition async_enter : M unit :=
  fun m =>
    if _async (pulp m) then (m, inl (RuntimeError "Already in async ctx"))
    else (set_pulp (set_async true (set_last_request (QTuple []) (pulp m))) m, inr tt).

(** Lines 114-119, what follows the [yield]. The message of the [assert]
    names [preprequest], which is not bound there. *)
Definition async_process (timeout : option Z) (sched : list nat) : M unit :=
  fun m =>
    match last_request (pulp m) with
    | QTuple q =>
        match run_jobs (completions timeout sched (length q)) q
                       (replicate (length q) None) (world m) with
        | (w', inl e) => (set_world w' m, inl e)
        | (w', inr vals) =>
            let c := set_last_response (RTuple vals) (pulp m) in
            if _asserting c then
              match is_ok c with
              | inr true => (mkMachine c w', inr tt)
              | inr false => (mkMachine c w', inl (NameError "preprequest"))
              | inl e => (mkMachine c w', inl e)
              end
            else (mkMachine c w', inr tt)
        end
    | _ => (m, inl TypeError)
    end.

(** [with pulp.async(timeout): body]. An exception of the body is thrown into
    the generator at its [yield]: the rest of the [try] block is skipped and
    the [finally] clause runs. *)
Definition async (timeout : option Z) (sched : list nat) (body : M unit) : M unit :=
  bind async_enter (fun _ =>
    try_finally (bind body (fun _ => async_process timeout sched)) (set_async false)).

(** The world once the jobs listed in [sched] have run, in that order. *)
Fixpoint world_after (sched : list nat) (q : list PreparedRequest) (w : World) : World :=
  match sched with
  | [] => w
  | i :: sched' =>
      match q !! i with
      | None => world_after sched' q w
      | Some rq => world_after sched' q (sender rq w).1
      end
  end.

(** The transport answers each request of [q], whenever it is sent. *)
Definition answers (q : list PreparedRequest) : Prop :=
  ∀ w rq, rq ∈ q → ∃ w' r, sender rq w = (w', inr r).

(** The jobs of [sched] run one after the other from [w] and each is
    answered. *)
Fixpoint clean (sched : list nat) (q : list PreparedRequest) (w : World) : Prop :=
  match sched with
  | [] => True
  | i :: sched' =>
      match q !! i with
      | None => clean sched' q w
      | Some rq => ∃ w' r, sender rq w = (w', inr r) ∧ clean sched' q w'
      end
  end.

(** The requests as [send] resolves them on connection [c]. *)
Definition resolve (c : Pulp) (requests : list Request) : list PreparedRequest :=
  (fun request : Request => request (url c) (auth c)) <$> requests.

(** A batch is open with [q] queued: the state [async_enter] sets up and
    [send] keeps. *)
Definition batch_open (m : Machine) (q : list PreparedRequest) : Prop :=
  _async (pulp m) = true ∧ last_request (pulp m) = QTuple q.

(** Statements of a [with] body that queue requests one after the other. *)
Fixpoint send_all (requests : list Request) : M unit :=
  match requests with
  | [] => ret tt
  | rq :: rest => bind (send rq) (fun _ => send_all rest)
  end.

End Connection.

Arguments Pulp {_}.
Arguments Machine {_}.
Arguments M {_} _.
Arguments Request {_}.
Arguments LastRequest {_}.
Arguments LastResponse {_}.

(** ** Tasks ([task.py]) *)

(** What [Item.from_response] returns: one task, or a list of them. *)
Inductive TaskOrList :=
| One (t : Task)
| Many (ts : list Task).

(** The code of the repository that [task.py] calls and that lives in other
    modules ([item.py], [hasdata.py], [pulp_auto/__init__.py]): taken as
    parameters. [reload self] is [self.reload(pulp)]: it returns the task with
    its data fetched anew, or raises and leaves the task as it was.
    [from_response] and [from_report] take what [pulp.send] returned, which is
    [None] in async mode. [GET path] is [Request('GET', path)]. *)
Class Items `{Transport} := {
  reload : Task -> M Task;
  from_response : option Response -> exn + TaskOrList;
  from_report : option Response -> exn + gmap string json;
  strip_url : json -> exn + string;
  GET : string -> Request
}.

(** [TaskDetails] ([task.py] 68-70). *)
Definition active_states : list string := ["running"; "waiting"]%string.
Definition end_states : list string := ["finished"; "error"; "canceled"; "cancelled"]%string.
Definition error_states : list string := ["error"]%string.

(** [TaskDetails.state]: [self.data['state']] ([task.py] 72-74). *)
Definition state (self : Task) : exn + json :=
  match data self !! "state"%string with
  | Some v => inr v
  | None => inl (KeyError "state")
  end.

(** [value in states], for a list of strings. *)
Definition in_states (v : json) (states : list string) : bool :=
  match v with
  | JStr s => bool_decide (s ∈ states)
  | _ => false
  end.

(** [wait]'s default [frequency], 0.5 s. *)
Definition default_frequency : Z := 500.

(** How the [while] loop of [wait] is left: its condition turned false (the
    [else] clause runs), a [break], or an exception. *)
Inductive loop_exit :=
| LoopElse
| LoopBreak
| LoopRaise (e : exn).

Section Tasks.
Context `{Items}.

(** The loop of [AbstractTask.wait] ([task.py] 40-48); [fuel] bounds the
    number of cycles. [time.sleep] refuses a negative length. *)
Fixpoint wait_loop (fuel : nat) (delta frequency : Z) (self : Task) (m : Machine)
    : option (Machine * Task * loop_exit) :=
  match fuel with
  | O => None
  | S fuel' =>
      if time_time (world m) <=? delta then
        if frequency <? 0 then Some (m, self, LoopRaise (OtherError "IOError"))
        else
          let m1 := set_world (time_sleep frequency (world m)) m in
          match reload self m1 with
          | (m2, inl e) =>
              if is_AssertionError e then Some (m2, self, LoopBreak)
              else Some (m2, self, LoopRaise e)
          | (m2, inr self') =>
              match state self' with
              | inl e => Some (m2, self', LoopRaise e)
              | inr s =>
                  if in_states s end_states then Some (m2, self', LoopBreak)
                  else wait_loop fuel' delta frequency self' m2
              end
          end
      else Some (m, self, LoopElse)
  end.

(** Lines 51-52: what [wait] does once the loop was left by [break]. *)
Definition wait_verdict (self : Task) : exn + unit :=
  match state self with
  | inl e => inl e
  | inr s =>
      if in_states s error_states then
        match data self !! "error"%string with
        | Some err => inl (TaskFailure err self)
        | None => inl (KeyError "error")
        end
      else inr tt
  end.

(** [AbstractTask.wait] ([task.py] 33-52). The result holds the machine, the
    task as the call leaves it, and the exception or the normal return. *)
Definition wait (fuel : nat) (timeout frequency : Z) (self : Task) (m : Machine)
    : option (Machine * Task * (exn + unit)) :=
  let delta := time_time (world m) + timeout in
  match wait_loop fuel delta frequency self m with
  | None => None
  | Some (m', self', LoopElse) => Some (m', self', inl (TaskTimeoutError timeout self'))
  | Some (m', self', LoopRaise e) => Some (m', self', inl e)
  | Some (m', self', LoopBreak) => Some (m', self', wait_verdict self')
  end.

(** Statements that may run out of fuel. *)
Definition MF (A : Type) : Type := Machine -> option (Machine * (exn + A)).

Definition lift {A} (x : M A) : MF A := fun m => Some (x m).
Definition bindF {A B} (x : MF A) (k : A -> MF B) : MF B :=
  fun m => match x m with
           | None => None
           | Some (m', inl e) => Some (m', inl e)
           | Some (m', inr a) => k a m'
           end.
Definition liftE {A} (x : exn + A) : MF A := fun m => Some (m, x).

(** [for task in ret: task.wait(pulp, timeout=timeout)]. *)
Fixpoint wait_each (fuel : nat) (timeout : Z) (tasks : list Task) : MF unit :=
  match tasks with
  | [] => lift (ret tt)
  | task :: rest =>
      fun m => match wait fuel timeout default_frequency task m with
               | None => None
               | Some (m', _, inl e) => Some (m', inl e)
               | Some (m', _, inr _) => wait_each fuel timeout rest m'
               end
  end.

(** [Task.wait_for_response] ([task.py] 89-98). *)
Definition wait_for_response (fuel : nat) (timeout : Z) (response : option Response)
    : MF unit :=
  bindF (liftE (from_response response)) (fun r =>
    match r with
    | Many tasks => wait_each fuel timeout tasks
    | One task => wait_each fuel timeout [task]
    end).

(** [task['_href']] for an element of the spawned list. *)
Definition href (task : json) : exn + json :=
  match task with
  | JDict d =>
      match (list_to_map d : gmap string json) !! "_href"%string with
      | Some v => inr v
      | None => inl (KeyError "_href")
      end
  | _ => inl TypeError
  end.

(** [pulp.send(Request('GET', strip_url(task['_href'])))]. *)
Definition fetch (task : json) : M (option Response) :=
  fun m =>
    match href task with
    | inl e => (m, inl e)
    | inr h =>
        match strip_url h with
        | inl e => (m, inl e)
        | inr path => send (GET path) m
        end
    end.

(** ['spawned_tasks' in Task.from_response(task_resp).data]; a list has no
    attribute [data]. *)
Definition has_spawned_tasks (task_resp : option Response) : exn + bool :=
  match from_response task_resp with
  | inl e => inl e
  | inr (One t) => inr (bool_decide (is_Some (data t !! "spawned_tasks"%string)))
  | inr (Many _) => inl AttributeError
  end.

(** [cls.from_report(response)['spawned_tasks']], and the list to iterate on:
    nothing when the value is not a list. *)
Definition spawned_tasks (response : option Response) : exn + list json :=
  match from_report response with
  | inl e => inl e
  | inr report =>
      match report !! "spawned_tasks"%string with
      | None => inl (KeyError "spawned_tasks")
      | Some (JList ret) => inr ret
      | Some _ => inr []
      end
  end.

(** The body of the [for] loop of [wait_for_report] ([task.py] 108-112), given
    the recursive call. *)
Definition report_visit (rec : option Response -> MF unit) (fuel : nat) (timeout : Z)
    (task : json) : MF unit :=
  bindF (lift (fetch task)) (fun task_resp =>
  bindF (wait_for_response fuel timeout task_resp) (fun _ =>
  bindF (lift (fetch task)) (fun task_resp' =>
  bindF (liftE (has_spawned_tasks task_resp')) (fun b =>
    if b then rec task_resp' else lift (ret tt))))).

Fixpoint report_loop (rec : option Response -> MF unit) (fuel : nat) (timeout : Z)
    (tasks : list json) : MF unit :=
  match tasks with
  | [] => lift (ret tt)
  | task :: rest =>
      bindF (report_visit rec fuel timeout task) (fun _ =>
        report_loop rec fuel timeout rest)
  end.

(** [Task.wait_for_report] ([task.py] 100-112); [fuel] bounds the depth of the
    recursion and the cycles of each [wait]. *)
Fixpoint wait_for_report (fuel : nat) (timeout : Z) (response : option Response)
    : MF unit :=
  match fuel with
  | O => fun _ => None
  | S fuel' =>
      bindF (liftE (spawned_tasks response)) (fun ret =>
        report_loop (wait_for_report fuel' timeout) fuel' timeout ret)
  end.

(** *** The same walks, as the specification words them *)

(** [cycles delta frequency k self m self' m']: [k] poll cycles in a row took
    [self], [m] to [self'], [m']; each began with the clock not past the
    deadline [delta], slept, reloaded with success and saw a state that is no
    end state. *)
Inductive cycles (delta frequency : Z) : nat -> Task -> Machine -> Task -> Machine -> Prop :=
| cycles_O self m : cycles delta frequency 0 self m self m
| cycles_S k self m self1 m1 s self' m' :
    time_time (world m) <= delta ->
    reload self (set_world (time_sleep frequency (world m)) m) = (m1, inr self1) ->
    state self1 = inr s ->
    in_states s end_states = false ->
    cycles delta frequency k self1 m1 self' m' ->
    cycles delta frequency (S k) self m self' m'.

(** How the polling ends after those cycles: the clock is past the deadline
    when the next cycle would begin; or the cycle goes ahead and its reload
    shows an end state, or raises an [AssertionError], or raises something
    else, or brings data whose state cannot be read. The task and the machine
    given are those the polling ends with. *)
Inductive poll_end :=
| ByDeadline
| ByEndState
| ByAssertion (e : exn)
| ByException (e : exn).

Inductive ending (delta frequency : Z) (self : Task) (m : Machine)
    : poll_end -> Task -> Machine -> Prop :=
| end_deadline :
    delta < time_time (world m) ->
    ending delta frequency self m ByDeadline self m
| end_state m' self' s :
    time_time (world m) <= delta ->
    reload self (set_world (time_sleep frequency (world m)) m) = (m', inr self') ->
    state self' = inr s ->
    in_states s end_states = true ->
    ending delta frequency self m ByEndState self' m'
| end_assertion m' e :
    time_time (world m) <= delta ->
    reload self (set_world (time_sleep frequency (world m)) m) = (m', inl e) ->
    is_AssertionError e = true ->
    ending delta frequency self m (ByAssertion e) self m'
| end_exception m' e :
    time_time (world m) <= delta ->
    reload self (set_world (time_sleep frequency (world m)) m) = (m', inl e) ->
    is_AssertionError e = false ->
    ending delta frequency self m (ByException e) self m'
| end_no_state m' self' e :
    time_time (world m) <= delta ->
    reload self (set_world (time_sleep frequency (world m)) m) = (m', inr self') ->
    state self' = inl e ->
    ending delta frequency self m (ByException e) self' m'.

(** The polling was ended by what the loop leaves with [break]. *)
Definition settled (c : poll_end) : Prop :=
  c = ByEndState ∨ ∃ e, c = ByAssertion e.

Definition exit_of (c : poll_end) : loop_exit :=
  match c with
  | ByDeadline => LoopElse
  | ByEndState | ByAssertion _ => LoopBreak
  | ByException e => LoopRaise e
  end.

(** What a visit does before it looks into the spawned tasks: the two
    fetches around the wait, and the test on the second. *)
Definition visit_prefix (fuel : nat) (timeout : Z) (task : json)
    : MF (option Response * bool) :=
  bindF (lift (fetch task)) (fun task_resp =>
  bindF (wait_for_response fuel timeout task_resp) (fun _ =>
  bindF (lift (fetch task)) (fun task_resp' =>
  bindF (liftE (has_spawned_tasks task_resp')) (fun b =>
    lift (ret (task_resp', b)))))).

(** One reference of the tree-wait: fetch the task, wait on it, fetch it
    again; the result is the list of the references that fetch carries. *)
Definition spec_visit (fuel : nat) (timeout : Z) (task : json) : MF (list json) :=
  bindF (lift (fetch task)) (fun task_resp =>
  bindF (wait_for_response fuel timeout task_resp) (fun _ =>
  bindF (lift (fetch task)) (fun task_resp' =>
  bindF (liftE (has_spawned_tasks task_resp')) (fun b =>
    if b then liftE (spawned_tasks task_resp') else lift (ret []))))).

(** Depth-first, left to right, with an explicit stack of references: the
    first of the stack is visited and what it spawned goes on top, in the
    order listed. A failure ends the walk there. *)
Fixpoint spec_tree_wait (steps fuel : nat) (timeout : Z) (stack : list json) : MF unit :=
  match steps with
  | O => fun _ => None
  | S steps' =>
      match stack with
      | [] => lift (ret tt)
      | task :: rest =>
          bindF (spec_visit fuel timeout task) (fun children =>
            spec_tree_wait steps' fuel timeout (children ++ rest))
      end
  end.

Definition spec_waitForReport (steps fuel : nat) (timeout : Z) (response : option Response)
    : MF unit :=
  bindF (liftE (spawned_tasks response)) (spec_tree_wait steps fuel timeout).

(** [out] is where the walk of the stack gets to once it has been through
    [tasks], its top: at a failure, which ends the walk whatever lies below;
    or through them all, from where the walk of what lies below goes on. *)
Definition walks (timeout : Z) (tasks : list json) (m : Machine)
    (out : Machine * (exn + unit)) : Prop :=
  match out with
  | (m', inl e) =>
      ∀ rest, ∃ steps fuel,
        spec_tree_wait steps fuel timeout (tasks ++ rest) m = Some (m', inl e)
  | (m', inr _) =>
      ∀ rest steps fuel out',
        spec_tree_wait steps fuel timeout rest m' = Some out' ->
        ∃ steps' fuel', spec_tree_wait steps' fuel' timeout (tasks ++ rest) m = Some out'
  end.

(** [Task.wait_for_reports] ([task.py] 114-120). *)
Fixpoint wait_for_reports (fuel : nat) (timeout : Z) (responses : list (option Response))
    : MF unit :=
  match responses with
  | [] => lift (ret tt)
  | response :: rest =>
      bindF (wait_for_report fuel timeout response) (fun _ =>
        wait_for_reports fuel timeout rest)
  end.

End Tasks.

(** ** The rest of [pulp.py] *)

(** What [Pulp.pubkey] reaches outside the module: the body of a response,
    M2Crypto's loader of a public key, and [StaticRequest('GET', path)], whose
    [__call__] goes through [path_join], which another module holds. *)
Class Keys `{Transport} := {
  content : Response -> string;
  load_pub_key_bio : string -> exn + Key;
  StaticGET : string -> Request
}.

Section PublicKey.
Context `{Keys}.

Definition set_pubkey (v : option Key) (c : Pulp) : Pulp :=
  mkPulp (url c) (auth c) (verify c) (last_response c) (last_request c)
         (_asserting c) (_async c) v (check_function_attr c).

Definition empty_content_message (r : Response) : string :=
  String.append "got empty content: " (format_response r).

(** [Pulp.pubkey] ([pulp.py] 123-132). A key that was loaded is true in
    [if self._pubkey]; an empty body is false in [assert response.content];
    in async mode [send] returns [None], on which [content] is no attribute. *)
Definition pubkey : M Key :=
  fun m =>
    match _pubkey (pulp m) with
    | Some k => (m, inr k)
    | None =>
        match asserting true None (send (StaticGET "rsa_pub.key")) m with
        | (m1, inl e) => (m1, inl e)
        | (m1, inr None) => (m1, inl AttributeError)
        | (m1, inr (Some response)) =>
            if String.eqb (content response) "" then
              (m1, inl (AssertionError (empty_content_message response)))
            else
              match load_pub_key_bio (content response) with
              | inl e => (m1, inl e)
              | inr k => (set_pulp (set_pubkey (Some k) (pulp m1)) m1, inr k)
              end
        end
    end.

(** The queue is a tuple whenever the connection is in async mode. *)
Definition queue_ok (c : Pulp) : Prop :=
  _async c = true -> ∃ q, last_request c = QTuple q.

End PublicKey.

(** [ResponseLike] ([pulp.py] 178-193). *)
Module ResponseLike.

Record t := mk { status_code : Z; text : option string }.

(** The right operand of [==]: any object; [status_code] and [text] may be
    attributes of it or not. *)
Record operand := mkOperand {
  operand_status_code : option Z;
  operand_text : option string
}.

(** What [__eq__] returns: a boolean, or the tuple that line 187 builds. *)
Inductive value :=
| Bool (b : bool)
| Tuple3 (a : Z) (b : bool) (c : string).

(** The truth value of the result, as an [if] or an [assert] takes it: a
    tuple of three elements is true. *)
Definition truth (v : value) : bool :=
  match v with
  | Bool b => b
  | Tuple3 _ _ _ => true
  end.

(** [ResponseLike.__eq__] ([pulp.py] 184-190). Line 187 returns the tuple
    [(self.status_code, self.text == other.status_code, other.text)]; a
    string is not equal to a number. A missing attribute is the
    [AttributeError] that the [except] clause turns into [False]. *)
Definition eq (self : t) (other : operand) : value :=
  match text self with
  | Some _ =>
      match operand_status_code other with
      | None => Bool false
      | Some _ =>
          match operand_text other with
          | None => Bool false
          | Some other_text => Tuple3 (status_code self) false other_text
          end
      end
  | None =>
      match operand_status_code other with
      | None => Bool false
      | Some c => Bool (status_code self =? c)
      end
  end.

End ResponseLike.

(** ** [normalize_url] ([pulp/__init__.py] 5-8)

    [re.sub('([^:])///*', r'\1/', url)]: from left to right, a character
    other than a colon that two slashes or more follow is kept, with one
    slash for all of them, and the search goes on behind them. [sub_scan]
    reads the string once; [skipping] is set while it is in the slashes of a
    match. *)
Section Urls.
Import Stdlib.Strings.Ascii.

Definition is_slash (c : ascii) : bool := Ascii.eqb c "/"%char.
Definition is_colon (c : ascii) : bool := Ascii.eqb c ":"%char.

Definition two_slashes (s : string) : bool :=
  match s with
  | String a (String b _) => is_slash a && is_slash b
  | _ => false
  end.

Fixpoint sub_scan (skipping : bool) (s : string) : string :=
  match s with
  | EmptyString => EmptyString
  | String c rest =>
      if skipping && is_slash c then sub_scan true rest
      else if negb (is_colon c) && two_slashes rest then
        String c (String "/"%char (sub_scan true rest))
      else String c (sub_scan false rest)
  end.

Definition normalize_url (url : string) : string := sub_scan false url.

(** The pattern matches somewhere in [s]. *)
Fixpoint stacked (s : string) : bool :=
  match s with
  | EmptyString => false
  | String c rest => (negb (is_colon c) && two_slashes rest) || stacked rest
  end.

(** The characters of [s] that are no slashes. *)
Fixpoint unslashed (s : string) : string :=
  match s with
  | EmptyString => EmptyString
  | String c rest => if is_slash c then unslashed rest else String c (unslashed rest)
  end.

End Urls.

(** ** The rest of [task.py] *)

(** [TaskDetails.id] and its setter ([task.py] 76-82). *)
Definition id (self : Task) : exn + json :=
  match data self !! "task_id"%string with
  | Some v => inr v
  | None => inl (KeyError "task_id")
  end.

Definition set_id (other : json) (self : Task) : Task :=
  mkTask (<["task_id"%string := other]> (data self)).

(** ** A test double

    A scripted server: every URL has the list of the responses it will give,
    the last of which it repeats; an unknown URL answers 404. The world logs
    the requests it was sent, and each of them takes a millisecond. *)
Module Double.

Record reply := mkReply { code : Z; body : json }.

Record server := mkServer {
  clock : Z;
  sent : list string;
  scripts : list (string * list reply)
}.

Fixpoint answer (u : string) (ss : list (string * list reply))
    : reply * list (string * list reply) :=
  match ss with
  | [] => (mkReply 404 JNull, [])
  | (u', rs) :: ss' =>
      if String.eqb u u' then
        match rs with
        | [] => (mkReply 404 JNull, ss)
        | [r] => (r, ss)
        | r :: rs' => (r, (u', rs') :: ss')
        end
      else
        let (r, ss'') := answer u ss' in (r, (u', rs) :: ss'')
  end.

Definition serve (w : server) (rq : string) (v : option bool) : server * (exn + reply) :=
  let (r, ss) := answer rq (scripts w) in
  (mkServer (clock w + 1) (sent w ++ [rq]) ss, inr r).

#[export] Instance transport : Transport := {|
  Auth := unit;
  PreparedRequest := string;
  Response := reply;
  Key := unit;
  World := server;
  status_code := code;
  session_send := serve;
  format_preprequest := fun rq => rq;
  format_response := fun r => "reply"%string;
  time_time := clock;
  time_sleep := fun d w => mkServer (clock w + d) (sent w) (scripts w)
|}.

Definition request (path : string) : Request := fun u _ => String.append u path.

Definition task_of (d : list (string * json)) : Task := mkTask (list_to_map d).

(** Modelled from the spec: [Item.reload], which [item.py] holds, re-fetches
    the task's representation from the server by id and overwrites the local
    state; it fails with an assertion-style condition if the server reports
    that the job no longer exists. *)
Definition Item_reload (self : Task) : M Task :=
  fun m =>
    match data self !! "task_id"%string with
    | Some (JStr id) =>
        match asserting true None (send (request (String.append "/tasks/" id))) m with
        | (m', inr (Some r)) =>
            match body r with
            | JDict d => (m', inr (task_of d))
            | _ => (m', inl TypeError)
            end
        | (m', inr None) => (m', inl AttributeError)
        | (m', inl e) => (m', inl e)
        end
    | _ => (m, inl (KeyError "task_id"))
    end.

(** Modelled from the spec: [Item.from_response] parses one or many task
    representations out of a response. *)
Definition Item_from_response (o : option reply) : exn + TaskOrList :=
  match o with
  | Some r =>
      match body r with
      | JDict d => inr (One (task_of d))
      | JList l =>
          inr (Many (omap (fun j => match j with JDict d => Some (task_of d) | _ => None end) l))
      | _ => inl TypeError
      end
  | None => inl AttributeError
  end.

(** Modelled from the spec: [Task.from_report] parses a call report, which
    lists the spawned tasks. *)
Definition Task_from_report (o : option reply) : exn + gmap string json :=
  match o with
  | Some r =>
      match body r with
      | JDict d => inr (list_to_map d)
      | _ => inl TypeError
      end
  | None => inl AttributeError
  end.

#[export] Instance items : Items := {|
  reload := Item_reload;
  from_response := Item_from_response;
  from_report := Task_from_report;
  strip_url := fun j => match j with JStr s => inr s | _ => inl AttributeError end;
  GET := request
|}.

Definition pulp0 : Pulp := Pulp_init "http://pulp" tt false false.

Definition task_json (id st : string) : json :=
  JDict [("task_id", JStr id); ("state", JStr st); ("error", JNull)]%string.

Definition running (id : string) : reply := mkReply 200 (task_json id "running").
Definition finished (id : string) : reply := mkReply 200 (task_json id "finished").

(** A server on which task A runs, then is finished. *)
Definition server_A : server :=
  mkServer 0 [] [("http://pulp/tasks/A"%string, [running "A"; finished "A"])].

(** A server that does not know task A. *)
Definition server_gone : server := mkServer 0 [] [].

Definition task_A : Task := task_of [("task_id", JStr "A"); ("state", JStr "running")]%string.

(** A reference to a spawned task, and a call report that lists some. *)
Definition ref (id : string) : json :=
  JDict [("_href", JStr (String.append "/tasks/" id)); ("task_id", JStr id)]%string.

Definition report (ids : list string) : reply :=
  mkReply 202 (JDict [("spawned_tasks", JList (ref <$> ids))]%string).

(** The representation of a task in state [st] that spawned the tasks [ids]. *)
Definition spawning (id st : string) (ids : list string) : reply :=
  mkReply 200 (JDict [("task_id", JStr id); ("state", JStr st); ("error", JNull);
                      ("spawned_tasks", JList (ref <$> ids))]%string).

Definition failed (id : string) : reply :=
  mkReply 200 (JDict [("task_id", JStr id); ("state", JStr "error");
                      ("error", JStr "boom")]%string).

(** A server with a tree of two levels: A, finished, spawned B, which runs and
    then is finished; C stands beside A. *)
Definition server_tree : server :=
  mkServer 0 []
    [("http://pulp/tasks/A", [spawning "A" "finished" ["B"]]);
     ("http://pulp/tasks/B", [running "B"; finished "B"]);
     ("http://pulp/tasks/C", [finished "C"])]%string.

(** The same tree with B ending in error. *)
Definition server_tree_failing : server :=
  mkServer 0 []
    [("http://pulp/tasks/A", [spawning "A" "finished" ["B"]]);
     ("http://pulp/tasks/B", [running "B"; failed "B"]);
     ("http://pulp/tasks/C", [finished "C"])]%string.

Definition machine0 : Machine := mkMachine pulp0 server_A.
Definition machine_gone : Machine := mkMachine pulp0 server_gone.
Definition machine_tree : Machine := mkMachine pulp0 server_tree.
Definition machine_tree_failing : Machine := mkMachine pulp0 server_tree_failing.

(** A connection that asserts, and one with a batch open and a request queued. *)
Definition machine_asserting : Machine :=
  mkMachine (Pulp_init "http://pulp" tt false true) server_A.

Definition machine_open : Machine :=
  mkMachine (set_last_request (QTuple ["http://pulp/a"%string]) (set_async true pulp0))
            server_A.

(** A body that queues a request and then raises. *)
Definition raising_body : M unit :=
  bind (send_all [request "/a"]) (fun _ => raise (OtherError "boom")).

(** What the examples look at in a result: the requests the server got and
    what was returned or raised. *)
Definition seen {A : Type} (out : option (Machine * (exn + A)))
    : option (list string * (exn + A)) :=
  match out with
  | Some (m, r) => Some (sent (world m), r)
  | None => None
  end.

Definition waited (out : option (Machine * Task * (exn + unit)))
    : option (list string * option json * (exn + unit)) :=
  match out with
  | Some (m, t, r) => Some (sent (world m), data t !! "state"%string, r)
  | None => None
  end.


(** The key of the server: the body of the static resource, as it is. *)
#[export] Instance keys : Keys := {|
  content := fun r => match body r with JStr s => s | _ => ""%string end;
  load_pub_key_bio := fun _ => inr tt;
  StaticGET := fun path => request (String.append "/pulp/static/" path)
|}.

(** A server that has a key, and one whose key is empty. *)
Definition server_key : server :=
  mkServer 0 [] [("http://pulp/pulp/static/rsa_pub.key"%string,
                  [mkReply 200 (JStr "-----BEGIN PUBLIC KEY-----")])].

Definition server_empty_key : server :=
  mkServer 0 [] [("http://pulp/pulp/static/rsa_pub.key"%string, [mkReply 200 (JStr "")])].

(** A transport that fails on one URL and answers 200 elsewhere. *)
Definition flaky (w : server) (rq : string) (v : option bool) : server * (exn + reply) :=
  if String.eqb rq "http://pulp/down" then
    (mkServer (clock w + 1) (sent w ++ [rq]) (scripts w), inl (OtherError "ConnectionError"))
  else (mkServer (clock w + 1) (sent w ++ [rq]) (scripts w), inr (mkReply 200 JNull)).

Definition flaky_transport : Transport := {|
  Auth := unit;
  PreparedRequest := string;
  Response := reply;
  Key := unit;
  World := server;
  status_code := code;
  session_send := flaky;
  format_preprequest := fun rq => rq;
  format_response := fun r => "reply"%string;
  time_time := clock;
  time_sleep := fun d w => mkServer (clock w + d) (sent w) (scripts w)
|}.

Definition pulp_flaky : @Pulp flaky_transport :=
  @Pulp_init flaky_transport "http://pulp" tt false false.

Definition machine_flaky : @Machine flaky_transport :=
  @mkMachine flaky_transport pulp_flaky server_gone.

Definition machine_key : Machine := mkMachine pulp0 server_key.

(** A server on which task A keeps running. *)
Definition machine_running : Machine :=
  mkMachine pulp0 (mkServer 0 [] [("http://pulp/tasks/A"%string, [running "A"])]).

(** Tasks as the client holds them, and a response that lists three. *)
Definition task_C_error : Task :=
  task_of [("task_id", JStr "C"); ("state", JStr "error"); ("error", JStr "old")]%string.

Definition several : reply :=
  mkReply 200 (JList [task_json "C" "running"; task_json "B" "running";
                      task_json "A" "running"]).

(** A report with a reference that has no [_href] between two that have. *)
Definition report_bad : reply :=
  mkReply 202 (JDict [("spawned_tasks",
                       JList [ref "C"; JDict [("task_id", JStr "X")]; ref "A"])]%string).

(** *** A server with a tree of jobs *)

(** A job of the server: its id, the number of requests the server answers
    with the job still running before it shows how the job ended, whether it
    ended in error, and the jobs it spawned, in the order its representation
    lists them once it has ended. *)
#[warnings="-register-all"]
Inductive job := Job (id : string) (polls : nat) (bad : bool) (children : list job).

Definition job_id (j : job) : string := match j with Job id _ _ _ => id end.
Definition job_polls (j : job) : nat := match j with Job _ polls _ _ => polls end.
Definition job_failed (j : job) : bool := match j with Job _ _ bad _ => bad end.
Definition job_spawned (j : job) : list job :=
  match j with Job _ _ _ children => children end.

(** The jobs of a tree depth-first: a job, then the trees of the jobs it
    spawned, from the first listed to the last. *)
Fixpoint jobs_of (j : job) : list job :=
  match j with
  | Job _ _ _ children => j :: flat_map jobs_of children
  end.

Definition all_jobs (forest : list job) : list job := flat_map jobs_of forest.

Definition job_url (id : string) : string :=
  String.append "http://pulp" (String.append "/tasks/" id).

(** What the server shows of a job that has ended: an error, or the state
    [finished] with the references to the jobs it spawned, when there are
    some. *)
Definition job_end (j : job) : reply :=
  if job_failed j then failed (job_id j)
  else
    match job_spawned j with
    | [] => finished (job_id j)
    | _ :: _ => spawning (job_id j) "finished" (job_id <$> job_spawned j)
    end.

(** The script of a job of which [left j] answers [running] are left. *)
Definition job_script (left : job -> nat) (j : job) : string * list reply :=
  (job_url (job_id j), replicate (left j) (running (job_id j)) ++ [job_end j]).

Definition job_server (forest : list job) : server :=
  mkServer 0 [] (job_script job_polls <$> all_jobs forest).




(** A synchronous connection to the server of the jobs [table], of which
    [left] tells what the scripts still hold. *)
Definition serving (table : list job) (left : job -> nat) (m : Machine) : Prop :=
  _async (pulp m) = false ∧ _asserting (pulp m) = false ∧
  url (pulp m) = "http://pulp"%string ∧
  check_function (pulp m) = Pulp_check_function ∧
  scripts (world m) = job_script left <$> table.

(** The requests the server is to get, as the specification words the
    tree-wait. The jobs are taken depth-first and in the order listed, which
    is the order of [all_jobs]. Each is fetched, waited on and fetched
    again; the wait polls until the job has ended, once at least. The first
    job that failed ends the walk, at the poll that shows the failure: the
    jobs behind it are not asked about. *)
Definition job_cycles (j : job) : nat := Nat.max 1 (job_polls j).

Fixpoint tree_requests (jobs : list job) : list string * option job :=
  match jobs with
  | [] => ([], None)
  | j :: rest =>
      if job_failed j then
        (replicate (1 + job_cycles j) (job_url (job_id j)), Some j)
      else
        (replicate (1 + job_cycles j + 1) (job_url (job_id j)) ++ (tree_requests rest).1,
         (tree_requests rest).2)
  end.




End Double.

(** * Properties *)

(** ** The connection *)

Section ConnectionFacts.
Context `{Transport}.

Lemma async_enter_open (m : Machine) :
  _async (pulp m) = false ->
  ∃ m1, async_enter m = (m1, inr tt) ∧ batch_open m1 [] ∧ world m1 = world m ∧
        url (pulp m1) = url (pulp m) ∧ auth (pulp m1) = auth (pulp m) ∧
        _asserting (pulp m1) = _asserting (pulp m) ∧
        last_response (pulp m1) = last_response (pulp m) ∧
        check_function (pulp m1) = check_function (pulp m).
Proof.
  intros Hs. unfold async_enter. rewrite Hs.
  eexists. split; [reflexivity|]. repeat split.
Qed.

Lemma send_queues (request : Request) (m : Machine) (q : list PreparedRequest) :
  batch_open m q ->
  send request m =
    (set_pulp (set_last_request
                 (QTuple (q ++ [request (url (pulp m)) (auth (pulp m))])) (pulp m)) m,
     inr None).
Proof.
  intros [Ha Hq]. unfold send. rewrite Ha, Hq. reflexivity.
Qed.

(** C6. With a batch open, opening another one fails with the [RuntimeError]
    of line 103 whatever the body and the timeout, the body does not run, and
    the machine is left as it was: still in async mode, with the same queue. *)
Theorem async_nested_fails (timeout : option Z) (sched : list nat) (body : M unit)
    (m : Machine) (q : list PreparedRequest) :
  batch_open m q ->
  ∃ msg, async timeout sched body m = (m, inl (RuntimeError msg)) ∧ batch_open m q.
Proof.
  intros Hopen. exists "Already in async ctx"%string. split; [|exact Hopen].
  destruct Hopen as [Ha _]. unfold async, bind, async_enter. rewrite Ha. reflexivity.
Qed.

(** C7. A [send] while a batch is open leaves the world alone (nothing goes
    to the network), resolves the request with the url and the auth the
    connection has at that moment and appends it to the queue, and returns
    [None]; the batch stays open. Setting the url and the auth of the
    connection afterwards does not touch what is queued: a later [send] adds
    its request, resolved with the new url and auth, behind it. *)
Theorem send_in_batch_queues (request : Request) (m : Machine) (q : list PreparedRequest) :
  batch_open m q ->
  ∃ m', send request m = (m', inr None) ∧
        world m' = world m ∧
        last_response (pulp m') = last_response (pulp m) ∧
        batch_open m' (q ++ [request (url (pulp m)) (auth (pulp m))]) ∧
        ∀ u a request',
          ∃ m'', send request' (set_pulp (set_auth a (set_url u (pulp m'))) m')
                   = (m'', inr None) ∧
                 world m'' = world m ∧
                 last_request (pulp m'')
                   = QTuple (q ++ [request (url (pulp m)) (auth (pulp m)); request' u a]).
Proof.
  intros Hopen. rewrite (send_queues request m q Hopen).
  eexists. split; [reflexivity|].
  destruct Hopen as [Ha Hq]. cbn. repeat split; try assumption.
  intros u a request'. eexists.
  rewrite (send_queues request' _ (q ++ [request (url (pulp m)) (auth (pulp m))])).
  - split; [reflexivity|]. cbn. split; [reflexivity|].
    rewrite <- app_assoc. reflexivity.
  - split; [exact Ha | reflexivity].
Qed.


(** C9. However the body of [with pulp.asserting(value, check_function)]
    ends, [_asserting] and [self.check_function] are afterwards what they
    were before; what the body returned or raised is passed on; and neither
    entering nor leaving touches the world or another attribute. The
    instance attribute [check_function] is set on the way out, to the value
    the lookup gave on the way in. *)
Theorem asserting_restores {A : Type} (value : bool) (cf : option (Response -> bool))
    (body : M A) (m : Machine) :
  let entered := set_pulp (asserting_enter value cf (pulp m)) m in
  let left := (asserting value cf body m).1 in
  (_asserting (pulp left) = _asserting (pulp m) ∧
   check_function (pulp left) = check_function (pulp m)) ∧
  (asserting value cf body m).2 = (body entered).2 ∧
  (_asserting (pulp entered) = value ∧
   check_function (pulp entered) = default (check_function (pulp m)) cf) ∧
  (world entered = world m ∧ other_attrs (pulp entered) = other_attrs (pulp m)) ∧
  (world left = world (body entered).1 ∧
   other_attrs (pulp left) = other_attrs (pulp (body entered).1)).
Proof.
  cbn zeta. unfold asserting, try_finally.
  destruct (body (set_pulp (asserting_enter value cf (pulp m)) m)) as [m' r] eqn:E.
  cbn. repeat split; destruct cf; reflexivity.
Qed.


(** *** Batches *)

Lemma send_all_queues (requests : list Request) (m : Machine) (q : list PreparedRequest) :
  batch_open m q ->
  ∃ m', send_all requests m = (m', inr tt) ∧
        batch_open m' (q ++ resolve (pulp m) requests) ∧ world m' = world m ∧
        _asserting (pulp m') = _asserting (pulp m) ∧
        last_response (pulp m') = last_response (pulp m).
Proof.
  revert m q. induction requests as [|request requests IH]; intros m q Hopen.
  - exists m. cbn. rewrite app_nil_r. auto.
  - cbn [send_all]. unfold bind. rewrite (send_queues request m q Hopen).
    set (m1 := set_pulp _ m).
    assert (Hopen1 : batch_open m1 (q ++ [request (url (pulp m)) (auth (pulp m))])).
    { destruct Hopen as [Ha _]. split; [exact Ha | reflexivity]. }
    destruct (IH m1 _ Hopen1) as (m' & E & Hopen' & Hw & Has & Hr).
    exists m'. rewrite E. split; [reflexivity|].
    rewrite <- app_assoc in Hopen'. auto.
Qed.

Lemma filter_all_out (sched : list nat) (l : list nat) :
  (∀ i, i ∈ l -> i ∈ sched) -> filter (fun i => i ∉ sched) l = [].
Proof.
  induction l as [|x l IH]; intros Hin; [reflexivity|].
  rewrite filter_cons. destruct (decide (x ∉ sched)) as [Hx|Hx].
  - exfalso. apply Hx, Hin. left.
  - apply IH. intros i Hi. apply Hin. right. exact Hi.
Qed.

Lemma completions_all (timeout : option Z) (sched : list nat) (n : nat) :
  sched ≡ₚ seq 0 n -> completions timeout sched n = sched.
Proof.
  intros Hp. destruct timeout as [t|]; [reflexivity|]. unfold completions.
  rewrite filter_all_out; [apply app_nil_r|].
  intros i Hi. rewrite Hp. exact Hi.
Qed.

Lemma schedule_all (sched : list nat) (n : nat) :
  sched ≡ₚ seq 0 n ->
  NoDup sched ∧ (∀ i, i ∈ sched ↔ (i < n)%nat).
Proof.
  intros Hp. split.
  - rewrite Hp. apply NoDup_seq.
  - intros i. rewrite Hp, elem_of_seq. lia.
Qed.

Lemma answers_clean (q : list PreparedRequest) (sched : list nat) (w : World) :
  answers q -> clean sched q w.
Proof.
  intros Hans. revert w. induction sched as [|i sched IH]; intros w; cbn [clean]; [exact I|].
  destruct (q !! i) as [rq|] eqn:E; [|apply IH].
  destruct (Hans w rq) as (w' & r & Hsend).
  { eapply list_elem_of_lookup_2. exact E. }
  exists w', r. split; [exact Hsend | apply IH].
Qed.

(** Every job of the run has its turn, whether one of them fails or not. *)
Lemma run_jobs_world (q : list PreparedRequest) (sched : list nat) :
  ∀ (vals : list (option Response)) (w : World),
    (run_jobs sched q vals w).1 = world_after sched q w.
Proof.
  induction sched as [|i sched IH]; intros vals w; cbn [run_jobs world_after]; [reflexivity|].
  destruct (q !! i) as [rq|]; [|apply IH].
  destruct (sender rq w) as [w' [e|r]]; cbn [fst]; apply IH.
Qed.

(** What a run of answered jobs leaves in [vals]: the slot of a job that ran
    holds the response the transport gave to that job's request in the world
    the jobs before it had made; the other slots are untouched. *)
Lemma run_jobs_clean (q : list PreparedRequest) (sched : list nat) :
  ∀ (vals : list (option Response)) (w : World),
    NoDup sched -> (∀ i, i ∈ sched -> (i < length q)%nat) -> length vals = length q ->
    clean sched q w ->
    ∃ vals', run_jobs sched q vals w = (world_after sched q w, inr vals') ∧
      length vals' = length q ∧
      (∀ i, i ∉ sched -> vals' !! i = vals !! i) ∧
      (∀ pre i post rq, sched = pre ++ i :: post -> q !! i = Some rq ->
         ∃ r, (sender rq (world_after pre q w)).2 = inr r ∧ vals' !! i = Some (Some r)).
Proof.
  induction sched as [|j sched IH]; intros vals w Hnd Hlt Hlen Hclean.
  - exists vals. cbn. repeat split; try assumption.
    intros [|? ?] ? ? ? E; discriminate E.
  - apply NoDup_cons in Hnd as [Hj Hnd].
    assert (Hjq : (j < length q)%nat) by (apply Hlt; left).
    destruct (lookup_lt_is_Some_2 q j Hjq) as [rqj Hrqj].
    cbn [clean] in Hclean. rewrite Hrqj in Hclean.
    destruct Hclean as (w' & r & Hsend & Hclean).
    destruct (IH (<[j := Some r]> vals) w' Hnd) as (vals' & Hrun & Hlen' & Hout & Hin).
    { intros i Hi. apply Hlt. right. exact Hi. }
    { rewrite length_insert. exact Hlen. }
    { exact Hclean. }
    exists vals'. cbn [run_jobs world_after]. rewrite Hrqj, Hsend. cbn [fst].
    split; [exact Hrun|]. split; [exact Hlen'|]. split.
    + intros i Hi. apply not_elem_of_cons in Hi as [Hne Hi].
      rewrite (Hout i Hi). apply list_lookup_insert_ne. congruence.
    + intros pre i post rq E Hrq. destruct pre as [|j' pre]; cbn in E.
      * injection E as <- <-. rewrite Hrqj in Hrq. injection Hrq as <-.
        exists r. cbn [world_after]. rewrite Hsend. split; [reflexivity|].
        rewrite (Hout j Hj). apply list_lookup_insert_eq. lia.
      * injection E as <- ->. cbn [world_after]. rewrite Hrqj, Hsend. cbn [fst].
        eapply Hin; [reflexivity | exact Hrq].
Qed.

Lemma run_jobs_ok (q : list PreparedRequest) (sched : list nat) :
  answers q ->
  ∀ (vals : list (option Response)) (w : World),
    NoDup sched -> (∀ i, i ∈ sched -> (i < length q)%nat) -> length vals = length q ->
    ∃ vals', run_jobs sched q vals w = (world_after sched q w, inr vals') ∧
      length vals' = length q ∧
      (∀ i, i ∉ sched -> vals' !! i = vals !! i) ∧
      (∀ pre i post rq, sched = pre ++ i :: post -> q !! i = Some rq ->
         ∃ r, (sender rq (world_after pre q w)).2 = inr r ∧ vals' !! i = Some (Some r)).
Proof.
  intros Hans vals w Hnd Hlt Hlen.
  apply run_jobs_clean; try assumption. apply answers_clean, Hans.
Qed.

(** The slots a run starts from. *)
Lemma replicate_None_lookup (n i : nat) :
  (i < n)%nat -> replicate n (@None Response) !! i = Some None.
Proof. intros Hi. apply lookup_replicate. auto. Qed.

(** Lines 114-116 when the jobs of the run are answered. *)
Lemma async_process_clean (timeout : option Z) (sched : list nat) (m : Machine)
    (q : list PreparedRequest) :
  last_request (pulp m) = QTuple q ->
  let js := completions timeout sched (length q) in
  clean js q (world m) ->
  NoDup js -> (∀ i, i ∈ js -> (i < length q)%nat) ->
  ∃ m' res vals, async_process timeout sched m = (m', res) ∧
    world m' = world_after js q (world m) ∧
    last_response (pulp m') = RTuple vals ∧
    last_request (pulp m') = QTuple q ∧
    _async (pulp m') = _async (pulp m) ∧
    (_asserting (pulp m) = false -> res = inr tt) ∧
    length vals = length q ∧
    (∀ i, (i < length q)%nat -> i ∉ js -> vals !! i = Some None) ∧
    (∀ pre i post rq, js = pre ++ i :: post -> q !! i = Some rq ->
       ∃ r, (sender rq (world_after pre q (world m))).2 = inr r ∧
            vals !! i = Some (Some r)).
Proof.
  intros Hq js Hclean Hnd Hlt. unfold async_process. rewrite Hq. fold js.
  destruct (run_jobs_clean q js (replicate (length q) None) (world m) Hnd Hlt)
    as (vals & Hrun & Hlen & Hout & Hin).
  { apply length_replicate. }
  { exact Hclean. }
  rewrite Hrun.
  assert (Hnone : ∀ i, (i < length q)%nat -> i ∉ js -> vals !! i = Some None).
  { intros i Hi Hni. rewrite (Hout i Hni). apply replicate_None_lookup. exact Hi. }
  cbn [_asserting set_last_response].
  destruct (_asserting (pulp m)) eqn:Has.
  - destruct (is_ok (set_last_response (RTuple vals) (pulp m))) as [e|[|]];
      (eexists; eexists; exists vals; split; [reflexivity|]; cbn;
       repeat split; try assumption; discriminate).
  - eexists; eexists; exists vals; split; [reflexivity|]; cbn.
    repeat split; assumption.
Qed.

(** Lines 114-116 on a queue that the transport answers. *)
Lemma async_process_ok (timeout : option Z) (sched : list nat) (m : Machine)
    (q : list PreparedRequest) :
  last_request (pulp m) = QTuple q ->
  answers q ->
  let js := completions timeout sched (length q) in
  NoDup js -> (∀ i, i ∈ js -> (i < length q)%nat) ->
  ∃ m' res vals, async_process timeout sched m = (m', res) ∧
    world m' = world_after js q (world m) ∧
    last_response (pulp m') = RTuple vals ∧
    last_request (pulp m') = QTuple q ∧
    _async (pulp m') = _async (pulp m) ∧
    (_asserting (pulp m) = false -> res = inr tt) ∧
    length vals = length q ∧
    (∀ i, (i < length q)%nat -> i ∉ js -> vals !! i = Some None) ∧
    (∀ pre i post rq, js = pre ++ i :: post -> q !! i = Some rq ->
       ∃ r, (sender rq (world_after pre q (world m))).2 = inr r ∧
            vals !! i = Some (Some r)).
Proof.
  intros Hq Hans js Hnd Hlt.
  apply async_process_clean; try assumption. apply answers_clean, Hans.
Qed.

Lemma async_entered (timeout : option Z) (sched : list nat) (body : M unit)
    (m m1 : Machine) :
  async_enter m = (m1, inr tt) ->
  async timeout sched body m =
    try_finally (bind body (fun _ => async_process timeout sched)) (set_async false) m1.
Proof. intros E. unfold async at 1, bind at 1. rewrite E. reflexivity. Qed.

(** A batch that queues [requests] and whose jobs all finish: what the slots
    of the tuple hold, by the place of each job in the schedule. *)
Lemma async_batch_slots (timeout : option Z) (sched : list nat)
    (requests : list Request) (m : Machine) :
  _async (pulp m) = false ->
  sched ≡ₚ seq 0 (length requests) ->
  answers (resolve (pulp m) requests) ->
  ∃ m' res vals, async timeout sched (send_all requests) m = (m', res) ∧
    last_response (pulp m') = RTuple vals ∧
    length vals = length requests ∧
    ∀ pre i post rq, sched = pre ++ i :: post ->
      resolve (pulp m) requests !! i = Some rq ->
      ∃ r, (sender rq (world_after pre (resolve (pulp m) requests) (world m))).2 = inr r ∧
           vals !! i = Some (Some r).
Proof.
  intros Hs Hp Hans.
  destruct (async_enter_open m Hs) as (m1 & E1 & Hopen1 & Hw1 & Hu & Ha & _).
  destruct (send_all_queues requests m1 [] Hopen1) as (m2 & E2 & [Ha2 Hq2] & Hw2 & _).
  assert (Hres : resolve (pulp m1) requests = resolve (pulp m) requests).
  { unfold resolve. rewrite Hu, Ha. reflexivity. }
  cbn [app] in Hq2. rewrite Hres in Hq2.
  set (q := resolve (pulp m) requests) in *.
  assert (Hlen : length q = length requests) by apply length_fmap.
  rewrite <- Hlen in Hp.
  destruct (schedule_all sched (length q) Hp) as [Hnd Hin].
  destruct (async_process_ok timeout sched m2 q Hq2 Hans) as
    (m3 & res & vals & E3 & _ & Hr3 & _ & _ & _ & Hlv & _ & Hjobs).
  { rewrite (completions_all _ _ _ Hp). exact Hnd. }
  { rewrite (completions_all _ _ _ Hp). intros i Hi. apply Hin, Hi. }
  rewrite (completions_all _ _ _ Hp) in Hjobs.
  rewrite (async_entered _ _ _ _ _ E1). unfold try_finally, bind. rewrite E2, E3.
  eexists; exists res, vals. split; [reflexivity|]. cbn.
  split; [exact Hr3|]. split; [congruence|].
  rewrite <- Hw1, <- Hw2. exact Hjobs.
Qed.

(** C1. A batch that queues [requests] by [send] and whose jobs all finish, in
    any order [sched] (a permutation of the job numbers), stores as last
    response a tuple as long as the batch; its [i]-th entry is the response
    the transport gave to the [i]-th request queued, resolved on the
    connection, at the point of the run where that job had its turn. *)
Theorem async_keeps_submission_order (timeout : option Z) (sched : list nat)
    (requests : list Request) (m : Machine) :
  _async (pulp m) = false ->
  sched ≡ₚ seq 0 (length requests) ->
  answers (resolve (pulp m) requests) ->
  ∃ m' res vals, async timeout sched (send_all requests) m = (m', res) ∧
    last_response (pulp m') = RTuple vals ∧
    length vals = length requests ∧
    ∀ i request, requests !! i = Some request ->
      ∃ pre post r, sched = pre ++ i :: post ∧
        (sender (request (url (pulp m)) (auth (pulp m)))
                (world_after pre (resolve (pulp m) requests) (world m))).2 = inr r ∧
        vals !! i = Some (Some r).
Proof.
  intros Hs Hp Hans.
  destruct (async_batch_slots timeout sched requests m Hs Hp Hans)
    as (m' & res & vals & E & Hr & Hlv & Hjobs).
  exists m', res, vals. split; [exact E|]. split; [exact Hr|]. split; [exact Hlv|].
  intros i request Hi.
  assert (Hqi : resolve (pulp m) requests !! i
                = Some (request (url (pulp m)) (auth (pulp m)))).
  { unfold resolve.
    exact (list_lookup_fmap_Some_2
             (fun request : Request => request (url (pulp m)) (auth (pulp m))) _ _ _ Hi). }
  assert (His : i ∈ sched).
  { rewrite Hp. apply elem_of_seq. apply lookup_lt_Some in Hi.
    unfold Request in *. lia. }
  destruct (list_elem_of_split _ _ His) as (pre & post & Esched).
  destruct (Hjobs pre i post _ Esched Hqi) as (r & Hr' & Hv).
  exists pre, post, r. auto.
Qed.

(** When the response of the transport depends on the request alone, the
    tuple is the same for every order in which the jobs finish. *)
Corollary async_tuple_of_any_schedule (respond : PreparedRequest -> Response)
    (timeout : option Z) (sched : list nat) (requests : list Request) (m : Machine) :
  _async (pulp m) = false ->
  sched ≡ₚ seq 0 (length requests) ->
  (∀ w rq, (sender rq w).2 = inr (respond rq)) ->
  last_response (pulp (async timeout sched (send_all requests) m).1)
    = RTuple ((fun rq => Some (respond rq)) <$> resolve (pulp m) requests).
Proof.
  intros Hs Hp Hresp.
  assert (Hans : answers (resolve (pulp m) requests)).
  { intros w rq _. exists (sender rq w).1, (respond rq).
    rewrite <- (Hresp w rq). apply surjective_pairing. }
  destruct (async_batch_slots timeout sched requests m Hs Hp Hans)
    as (m' & res & vals & E & Hr & Hlv & Hjobs).
  rewrite E. cbn [fst]. rewrite Hr. f_equal.
  set (q := resolve (pulp m) requests) in *.
  assert (Hlen : length q = length requests) by apply length_fmap.
  apply list_eq. intros i. rewrite list_lookup_fmap.
  destruct (q !! i) as [rq|] eqn:Hqi; cbn.
  - assert (His : i ∈ sched).
    { rewrite Hp. apply elem_of_seq. apply lookup_lt_Some in Hqi. lia. }
    destruct (list_elem_of_split _ _ His) as (pre & post & Esched).
    destruct (Hjobs pre i post rq Esched Hqi) as (r & Hr' & Hv).
    rewrite Hresp in Hr'. injection Hr' as <-. exact Hv.
  - apply lookup_ge_None. apply lookup_ge_None in Hqi. lia.
Qed.

(** C2, as the code has it. Leaving the batch context clears the async mode in
    every case. When the body raised, its exception is passed on, the world
    is as the body left it (no queued request went out) and so are the last
    response and the queue. When the body returned, and every job finishes
    and is answered, each queued request is sent once, in the order the jobs
    ran, and the last response is a tuple with one entry for each queued
    request, in the order of the queue: the [i]-th entry is the response the
    transport gave to the [i]-th request of the queue when its job had its
    turn. On a connection that does not assert the context is then left
    normally. *)
Theorem async_exit (timeout : option Z) (sched : list nat) (body : M unit) (m : Machine) :
  _async (pulp m) = false ->
  ∃ m1 m' res, async_enter m = (m1, inr tt) ∧
    async timeout sched body m = (m', res) ∧
    _async (pulp m') = false ∧
    match body m1 with
    | (m2, inl e) =>
        res = inl e ∧ world m' = world m2 ∧
        last_response (pulp m') = last_response (pulp m2) ∧
        last_request (pulp m') = last_request (pulp m2)
    | (m2, inr _) =>
        ∀ q, last_request (pulp m2) = QTuple q ->
          sched ≡ₚ seq 0 (length q) -> clean sched q (world m2) ->
          world m' = world_after sched q (world m2) ∧
          (_asserting (pulp m2) = false -> res = inr tt) ∧
          ∃ vals, last_response (pulp m') = RTuple vals ∧ length vals = length q ∧
            ∀ i rq, q !! i = Some rq ->
              ∃ pre post r, sched = pre ++ i :: post ∧
                (sender rq (world_after pre q (world m2))).2 = inr r ∧
                vals !! i = Some (Some r)
    end.
Proof.
  intros Hs. destruct (async_enter_open m Hs) as (m1 & E1 & _).
  exists m1. rewrite (async_entered _ _ _ _ _ E1). unfold try_finally, bind.
  destruct (body m1) as [m2 [e|[]]] eqn:Eb.
  - eexists; eexists. split; [exact E1|]. split; [reflexivity|]. cbn. auto.
  - destruct (async_process timeout sched m2) as [m3 res] eqn:E3.
    eexists; eexists. split; [exact E1|]. split; [reflexivity|]. cbn.
    split; [reflexivity|].
    intros q Hq Hp Hclean.
    destruct (schedule_all sched (length q) Hp) as [Hnd Hin].
    destruct (async_process_clean timeout sched m2 q Hq) as
      (m3' & res' & vals & E3' & Hw & Hr3 & _ & _ & Hres & Hlv & _ & Hjobs).
    { rewrite (completions_all _ _ _ Hp). exact Hclean. }
    { rewrite (completions_all _ _ _ Hp). exact Hnd. }
    { rewrite (completions_all _ _ _ Hp). intros i Hi. apply Hin, Hi. }
    rewrite (completions_all _ _ _ Hp) in Hjobs, Hw.
    rewrite E3 in E3'. injection E3' as <- <-.
    split; [exact Hw|]. split; [exact Hres|].
    exists vals. split; [exact Hr3|]. split; [exact Hlv|].
    intros i rq Hrq.
    destruct (list_elem_of_split sched i) as (pre & post & Esched).
    { apply Hin. apply lookup_lt_Some in Hrq. exact Hrq. }
    destruct (Hjobs pre i post rq Esched Hrq) as (r & Hr & Hv).
    exists pre, post, r. auto.
Qed.

(** C3, as the code has it. With a timeout, [sched] lists the jobs that
    finished before it ran out. Whether or not that is all of them, when
    each job that finished was answered and the connection does not assert,
    the context is left without an exception: the async mode is cleared and
    the last response is a tuple with one entry for each queued request;
    the entry of a job that finished is the response the transport gave to
    that job's request when the job had its turn, the entry of a job that
    did not finish is [None]. Nothing is asked of the requests whose jobs
    did not finish. *)
Theorem async_timeout_returns (t : Z) (sched : list nat) (body : M unit)
    (m m1 m2 : Machine) (q : list PreparedRequest) :
  async_enter m = (m1, inr tt) ->
  body m1 = (m2, inr tt) ->
  last_request (pulp m2) = QTuple q ->
  _asserting (pulp m2) = false ->
  NoDup sched -> (∀ i, i ∈ sched -> (i < length q)%nat) ->
  clean sched q (world m2) ->
  ∃ m' vals, async (Some t) sched body m = (m', inr tt) ∧
    _async (pulp m') = false ∧
    last_response (pulp m') = RTuple vals ∧
    length vals = length q ∧
    (∀ i, (i < length q)%nat -> i ∉ sched -> vals !! i = Some None) ∧
    (∀ pre i post rq, sched = pre ++ i :: post -> q !! i = Some rq ->
       ∃ r, (sender rq (world_after pre q (world m2))).2 = inr r ∧
            vals !! i = Some (Some r)).
Proof.
  intros E1 Eb Hq Has Hnd Hlt Hclean.
  destruct (async_process_clean (Some t) sched m2 q Hq Hclean Hnd Hlt) as
    (m3 & res & vals & E3 & _ & Hr3 & _ & _ & Hres & Hlv & Hnone & Hjobs).
  rewrite (Hres Has) in E3.
  rewrite (async_entered _ _ _ _ _ E1). unfold try_finally, bind. rewrite Eb, E3.
  eexists; exists vals. split; [reflexivity|]. cbn.
  split; [reflexivity|]. split; [exact Hr3|]. split; [exact Hlv|].
  split; [exact Hnone|]. exact Hjobs.
Qed.

End ConnectionFacts.

(** ** Tasks *)

Section TaskFacts.
Context `{Items}.

Lemma wait_loop_mono (n n' : nat) (delta frequency : Z) (self : Task) (m : Machine)
    (out : Machine * Task * loop_exit) :
  wait_loop n delta frequency self m = Some out -> (n <= n')%nat ->
  wait_loop n' delta frequency self m = Some out.
Proof.
  revert n' self m. induction n as [|n IH]; intros n' self m E Hle; [discriminate E|].
  destruct n' as [|n']; [lia|]. cbn [wait_loop] in *.
  destruct (time_time (world m) <=? delta); [|exact E].
  destruct (frequency <? 0); [exact E|].
  destruct (reload self _) as [m2 [e|self1]]; [exact E|].
  destruct (state self1) as [e|s]; [exact E|].
  destruct (in_states s end_states); [exact E|].
  apply IH; [exact E | lia].
Qed.

Lemma wait_mono (n n' : nat) (timeout frequency : Z) (self : Task) (m : Machine)
    (out : Machine * Task * (exn + unit)) :
  wait n timeout frequency self m = Some out -> (n <= n')%nat ->
  wait n' timeout frequency self m = Some out.
Proof.
  unfold wait. intros E Hle.
  destruct (wait_loop n _ frequency self m) as [o|] eqn:El; [|discriminate E].
  rewrite (wait_loop_mono _ _ _ _ _ _ _ El Hle). exact E.
Qed.

(** The result of [wait] does not depend on the fuel, once there is enough. *)
Lemma wait_unique (n n' : nat) (timeout frequency : Z) (self : Task) (m : Machine)
    (out out' : Machine * Task * (exn + unit)) :
  wait n timeout frequency self m = Some out ->
  wait n' timeout frequency self m = Some out' -> out' = out.
Proof.
  intros E E'.
  pose proof (wait_mono _ (Nat.max n n') _ _ _ _ _ E (Nat.le_max_l _ _)) as E1.
  pose proof (wait_mono _ (Nat.max n n') _ _ _ _ _ E' (Nat.le_max_r _ _)) as E2.
  congruence.
Qed.

(** Cycles that run their course are cycles of the loop. *)
Lemma wait_loop_cycles (delta frequency : Z) (k : nat) (self : Task) (m : Machine)
    (self' : Task) (m' : Machine) :
  0 <= frequency ->
  cycles delta frequency k self m self' m' ->
  ∀ n, wait_loop (k + n) delta frequency self m = wait_loop n delta frequency self' m'.
Proof.
  intros Hf Hc. induction Hc as [|k self m self1 m1 s self' m' Ht Hr Hs He _ IH];
    intros n; [reflexivity|].
  cbn [Nat.add wait_loop].
  apply Z.leb_le in Ht. rewrite Ht.
  assert (Ef : (frequency <? 0) = false) by (apply Z.ltb_ge; exact Hf).
  rewrite Ef, Hr, Hs, He. apply IH.
Qed.

(** The last step of the loop. *)
Lemma wait_loop_ending (delta frequency : Z) (self : Task) (m : Machine) (c : poll_end)
    (self' : Task) (m' : Machine) (n : nat) :
  0 <= frequency ->
  ending delta frequency self m c self' m' ->
  wait_loop (S n) delta frequency self m = Some (m', self', exit_of c).
Proof.
  intros Hf He.
  assert (Ef : (frequency <? 0) = false) by (apply Z.ltb_ge; exact Hf).
  cbn [wait_loop].
  destruct He as [Ht | m' self' s Ht Hr Hs Hend | m' e Ht Hr Ha | m' e Ht Hr Ha
                 | m' self' e Ht Hr Hs].
  - apply Z.leb_gt in Ht. rewrite Ht. reflexivity.
  - apply Z.leb_le in Ht. rewrite Ht, Ef, Hr, Hs, Hend. reflexivity.
  - apply Z.leb_le in Ht. rewrite Ht, Ef, Hr, Ha. reflexivity.
  - apply Z.leb_le in Ht. rewrite Ht, Ef, Hr, Ha. reflexivity.
  - apply Z.leb_le in Ht. rewrite Ht, Ef, Hr, Hs. reflexivity.
Qed.

(** With a clock that sleeping moves on and reloading does not set back, the
    polling ends: some cycles run their course, then comes an ending. *)
Lemma polling_ends (delta frequency : Z) :
  0 < frequency ->
  (∀ d w, 0 <= d -> time_time w + d <= time_time (time_sleep d w)) ->
  (∀ t m m' r, reload t m = (m', r) -> time_time (world m) <= time_time (world m')) ->
  ∀ (n : nat) (self : Task) (m : Machine),
    delta - time_time (world m) < Z.of_nat n ->
    ∃ k self_k m_k c self' m',
      (k <= n)%nat ∧
      cycles delta frequency k self m self_k m_k ∧
      ending delta frequency self_k m_k c self' m'.
Proof.
  intros Hf Hsleep Hreload. induction n as [|n IH]; intros self m Hn.
  - exists 0%nat, self, m, ByDeadline, self, m.
    split; [lia|]. split; [constructor|]. constructor. lia.
  - destruct (Z.lt_ge_cases delta (time_time (world m))) as [Hlate|Hin].
    { exists 0%nat, self, m, ByDeadline, self, m.
      split; [lia|]. split; [constructor|]. constructor. exact Hlate. }
    set (m1 := set_world (time_sleep frequency (world m)) m).
    destruct (reload self m1) as [m2 [e|self1]] eqn:Hr.
    { destruct (is_AssertionError e) eqn:Ha.
      - exists 0%nat, self, m, (ByAssertion e), self, m2.
        split; [lia|]. split; [constructor|]. eapply end_assertion; eassumption.
      - exists 0%nat, self, m, (ByException e), self, m2.
        split; [lia|]. split; [constructor|]. eapply end_exception; eassumption. }
    destruct (state self1) as [e|s] eqn:Hs.
    { exists 0%nat, self, m, (ByException e), self1, m2.
      split; [lia|]. split; [constructor|]. eapply end_no_state; eassumption. }
    destruct (in_states s end_states) eqn:Hend.
    { exists 0%nat, self, m, ByEndState, self1, m2.
      split; [lia|]. split; [constructor|]. eapply end_state; eassumption. }
    assert (Hclock : time_time (world m) + frequency <= time_time (world m2)).
    { pose proof (Hreload _ _ _ _ Hr) as H1.
      pose proof (Hsleep frequency (world m) ltac:(lia)) as H2.
      unfold m1 in H1. cbn in H1. lia. }
    destruct (IH self1 m2) as (k & self_k & m_k & c & self' & m' & Hk & Hc & He);
      [lia|].
    exists (S k), self_k, m_k, c, self', m'.
    split; [lia|]. split; [|exact He].
    eapply cycles_S; eassumption.
Qed.

Lemma wait_verdict_no_timeout (self : Task) (t : Z) (task : Task) :
  wait_verdict self ≠ inl (TaskTimeoutError t task).
Proof.
  unfold wait_verdict, state.
  destruct (data self !! "state"%string) as [s|]; [|discriminate].
  destruct (in_states s error_states); [|discriminate].
  destruct (data self !! "error"%string); discriminate.
Qed.

Lemma wait_verdict_returns (self : Task) :
  wait_verdict self = inr tt ↔
  ∃ s, state self = inr s ∧ in_states s error_states = false.
Proof.
  unfold wait_verdict. destruct (state self) as [e|s].
  - split; [discriminate|]. intros (s & E & _). discriminate E.
  - destruct (in_states s error_states) eqn:Es.
    + split.
      * destruct (data self !! "error"%string); discriminate.
      * intros (s' & E & Es'). injection E as <-. congruence.
    + split; [|reflexivity]. intros _. exists s. auto.
Qed.

Lemma wait_verdict_fails (self : Task) (s err : json) :
  state self = inr s -> in_states s error_states = true ->
  data self !! "error"%string = Some err ->
  wait_verdict self = inl (TaskFailure err self).
Proof. intros Hs He Hd. unfold wait_verdict. rewrite Hs, He, Hd. reflexivity. Qed.

(** What [wait] returns for the way the polling ended. *)
Lemma wait_of_ending (timeout frequency : Z) (k : nat) (self self_k self' : Task)
    (m m_k m' : Machine) (c : poll_end) :
  0 <= frequency ->
  cycles (time_time (world m) + timeout) frequency k self m self_k m_k ->
  ending (time_time (world m) + timeout) frequency self_k m_k c self' m' ->
  wait (k + 1) timeout frequency self m =
    Some (m', self',
          match c with
          | ByDeadline => inl (TaskTimeoutError timeout self')
          | ByEndState | ByAssertion _ => wait_verdict self'
          | ByException e => inl e
          end).
Proof.
  intros Hf Hc He. unfold wait.
  rewrite (wait_loop_cycles _ _ _ _ _ _ _ Hf Hc).
  rewrite (wait_loop_ending _ _ _ _ _ _ _ 0 Hf He).
  destruct c; reflexivity.
Qed.

(** Whatever the loop ends with, it got there by cycles that ran their
    course and an ending. *)
Lemma wait_loop_run (delta frequency : Z) :
  0 <= frequency ->
  ∀ (fuel : nat) (self : Task) (m m' : Machine) (self' : Task) (x : loop_exit),
    wait_loop fuel delta frequency self m = Some (m', self', x) ->
    ∃ k self_k m_k c,
      cycles delta frequency k self m self_k m_k ∧
      ending delta frequency self_k m_k c self' m' ∧
      x = exit_of c.
Proof.
  intros Hf.
  assert (Ef : (frequency <? 0) = false) by (apply Z.ltb_ge; exact Hf).
  induction fuel as [|fuel IH]; intros self m m' self' x E; [discriminate E|].
  cbn [wait_loop] in E. rewrite Ef in E.
  destruct (time_time (world m) <=? delta) eqn:Ht.
  - apply Z.leb_le in Ht.
    destruct (reload self _) as [m2 [e|self1]] eqn:Hr.
    + destruct (is_AssertionError e) eqn:Ha; injection E as <- <- <-.
      * exists 0%nat, self, m, (ByAssertion e).
        split; [constructor|]. split; [|reflexivity].
        eapply end_assertion; eassumption.
      * exists 0%nat, self, m, (ByException e).
        split; [constructor|]. split; [|reflexivity].
        eapply end_exception; eassumption.
    + destruct (state self1) as [e|s] eqn:Hs.
      * injection E as <- <- <-. exists 0%nat, self, m, (ByException e).
        split; [constructor|]. split; [|reflexivity].
        eapply end_no_state; eassumption.
      * destruct (in_states s end_states) eqn:Hend.
        -- injection E as <- <- <-. exists 0%nat, self, m, ByEndState.
           split; [constructor|]. split; [|reflexivity].
           eapply end_state; eassumption.
        -- destruct (IH _ _ _ _ _ E) as (k & self_k & m_k & c & Hc & He & Hx).
           exists (S k), self_k, m_k, c. split; [|split; assumption].
           eapply cycles_S; eassumption.
  - apply Z.leb_gt in Ht. injection E as <- <- <-.
    exists 0%nat, self, m, ByDeadline.
    split; [constructor|]. split; [|reflexivity]. constructor. exact Ht.
Qed.

(** C4, as the code has it. [wait] takes the deadline once, from the clock
    at entry, and polls in cycles of sleep and reload, the poll interval not
    being negative. Every outcome of the call comes after some cycles that
    ran their course and one of the ways of [ending]. It is a
    [TaskTimeoutError], with the timeout and the task, exactly when the
    clock was found past the deadline at the start of a cycle. When the
    polling was settled, by an end state seen or by an [AssertionError] of
    the reload, the state the task then has decides: an error state raises
    [TaskFailure] with the task and [data['error']], or [KeyError] when the
    data have no ['error']; data without ['state'] raise their [KeyError];
    and the call returns exactly when the polling was settled and that
    state is no error state. Another exception of the reload, and the
    [KeyError] of reloaded data without ['state'], are passed on. The call
    does end, with one outcome whatever the fuel, when the interval is
    positive, the clock moves on by the length of each sleep at least and
    a reload does not set it back. *)
Theorem wait_outcome (timeout frequency : Z) (self : Task) (m : Machine) :
  0 <= frequency ->
  (∀ fuel m' self' res,
     wait fuel timeout frequency self m = Some (m', self', res) ->
     ∃ k self_k m_k c,
       cycles (time_time (world m) + timeout) frequency k self m self_k m_k ∧
       ending (time_time (world m) + timeout) frequency self_k m_k c self' m' ∧
       ((∃ t task, res = inl (TaskTimeoutError t task)) ↔ c = ByDeadline) ∧
       (c = ByDeadline -> res = inl (TaskTimeoutError timeout self')) ∧
       (∀ s, settled c -> state self' = inr s -> in_states s error_states = true ->
          res = match data self' !! "error"%string with
                | Some err => inl (TaskFailure err self')
                | None => inl (KeyError "error")
                end) ∧
       (settled c -> data self' !! "state"%string = None -> res = inl (KeyError "state")) ∧
       (res = inr tt ↔
          settled c ∧ ∃ s, state self' = inr s ∧ in_states s error_states = false) ∧
       (∀ e, c = ByException e -> res = inl e)) ∧
  (0 < frequency ->
   (∀ d w, 0 <= d -> time_time w + d <= time_time (time_sleep d w)) ->
   (∀ t m m' r, reload t m = (m', r) -> time_time (world m) <= time_time (world m')) ->
   ∃ fuel m' self' res,
     wait fuel timeout frequency self m = Some (m', self', res) ∧
     ∀ fuel' out, wait fuel' timeout frequency self m = Some out -> out = (m', self', res)).
Proof.
  intros Hf0. split.
  - intros fuel m' self' res E.
    assert (Hrun : ∃ x, wait_loop fuel (time_time (world m) + timeout) frequency self m
                        = Some (m', self', x)).
    { unfold wait in E.
      destruct (wait_loop fuel _ frequency self m) as [[[m1 self1] x]|]; [|discriminate E].
      exists x. destruct x; injection E as <- <- _; reflexivity. }
    destruct Hrun as [x Hrun].
    destruct (wait_loop_run _ _ Hf0 _ _ _ _ _ _ Hrun) as (k & self_k & m_k & c & Hc & He & _).
    pose proof (wait_of_ending timeout frequency k self self_k self' m m_k m' c Hf0 Hc He)
      as Hw.
    pose proof (wait_unique _ _ _ _ _ _ _ _ Hw E) as Eres. injection Eres as ->.
    exists k, self_k, m_k, c. split; [exact Hc|]. split; [exact He|].
    assert (Hstate_err : ∀ e, state self' = inl e -> e = KeyError "state").
    { unfold state. destruct (data self' !! "state"%string); intros e Ee; congruence. }
    assert (Hverdict : ∀ s, state self' = inr s -> in_states s error_states = true ->
              wait_verdict self' = match data self' !! "error"%string with
                                   | Some err => inl (TaskFailure err self')
                                   | None => inl (KeyError "error")
                                   end).
    { intros s Hs Herr. unfold wait_verdict. rewrite Hs, Herr. reflexivity. }
    assert (Hnostate : data self' !! "state"%string = None ->
              wait_verdict self' = inl (KeyError "state")).
    { intros Hn. unfold wait_verdict, state. rewrite Hn. reflexivity. }
    destruct c as [| |e|e]; cbn.
    + split; [split; eauto|]. split; [reflexivity|].
      split; [intros s [Hx|[e Hx]]; discriminate Hx|].
      split; [intros [Hx|[e Hx]]; discriminate Hx|].
      split; [|discriminate].
      split; [discriminate|]. intros [[Hx|[e Hx]] _]; discriminate Hx.
    + split.
      { split; [|discriminate]. intros (t & task & Et).
        exfalso. exact (wait_verdict_no_timeout _ _ _ Et). }
      split; [discriminate|].
      split; [intros s _; apply Hverdict|].
      split; [intros _; exact Hnostate|].
      split; [|discriminate].
      rewrite wait_verdict_returns. unfold settled. intuition.
    + split.
      { split; [|discriminate]. intros (t & task & Et).
        exfalso. exact (wait_verdict_no_timeout _ _ _ Et). }
      split; [discriminate|].
      split; [intros s _; apply Hverdict|].
      split; [intros _; exact Hnostate|].
      split; [|discriminate].
      rewrite wait_verdict_returns. unfold settled. split; [|tauto].
      intros Hs. split; [right; eauto | exact Hs].
    + split.
      { split; [|discriminate]. intros (t & task & Et). exfalso.
        inversion He as [| | | m1 e1 _ _ Ha | m1 self1 e1 _ _ Hs]; subst.
        - injection Et as ->. discriminate Ha.
        - apply Hstate_err in Hs. congruence. }
      split; [discriminate|].
      split; [intros s [Hx|[e' Hx]]; discriminate Hx|].
      split; [intros [Hx|[e' Hx]]; discriminate Hx|].
      split; [|intros e' [= <-]; reflexivity].
      split; [discriminate|]. intros [[Hx|[e' Hx]] _]; discriminate Hx.
  - intros Hf Hsleep Hreload.
    destruct (polling_ends (time_time (world m) + timeout) frequency Hf Hsleep Hreload
                (Z.to_nat (timeout + 1)) self m)
      as (k & self_k & m_k & c & self' & m' & _ & Hc & He); [lia|].
    pose proof (wait_of_ending timeout frequency k self self_k self' m m_k m' c Hf0 Hc He)
      as Hw.
    eexists (k + 1)%nat, m', self', _. split; [exact Hw|].
    intros fuel' out E. exact (wait_unique _ _ _ _ _ _ _ _ Hw E).
Qed.


(** *** The tree of spawned tasks *)

Lemma wait_each_mono (n n' : nat) (timeout : Z) (tasks : list Task) (m : Machine)
    (out : Machine * (exn + unit)) :
  wait_each n timeout tasks m = Some out -> (n <= n')%nat ->
  wait_each n' timeout tasks m = Some out.
Proof.
  intros E Hle. revert m E. induction tasks as [|task tasks IH]; intros m E; [exact E|].
  cbn [wait_each] in *.
  destruct (wait n timeout default_frequency task m) as [[[m1 t1] r]|] eqn:Ew;
    [|discriminate E].
  rewrite (wait_mono _ _ _ _ _ _ _ Ew Hle).
  destruct r as [e|u]; [exact E | apply IH, E].
Qed.

Lemma wait_for_response_mono (n n' : nat) (timeout : Z) (response : option Response)
    (m : Machine) (out : Machine * (exn + unit)) :
  wait_for_response n timeout response m = Some out -> (n <= n')%nat ->
  wait_for_response n' timeout response m = Some out.
Proof.
  unfold wait_for_response, bindF, liftE. intros E Hle.
  destruct (from_response response) as [e|[t|ts]]; [exact E| |];
    eapply wait_each_mono; eassumption.
Qed.

Lemma visit_prefix_mono (n n' : nat) (timeout : Z) (task : json) (m : Machine)
    (out : Machine * (exn + (option Response * bool))) :
  visit_prefix n timeout task m = Some out -> (n <= n')%nat ->
  visit_prefix n' timeout task m = Some out.
Proof.
  unfold visit_prefix, bindF, lift. intros E Hle.
  destruct (fetch task m) as [ma [e|r1]]; [exact E|].
  destruct (wait_for_response n timeout r1 ma) as [[mb rb]|] eqn:Ew; [|discriminate E].
  rewrite (wait_for_response_mono _ _ _ _ _ _ Ew Hle). exact E.
Qed.

Lemma report_visit_prefix (rec : option Response -> MF unit) (fuel : nat) (timeout : Z)
    (task : json) (m : Machine) :
  report_visit rec fuel timeout task m =
  bindF (visit_prefix fuel timeout task)
        (fun p => if p.2 then rec p.1 else lift (ret tt)) m.
Proof.
  unfold report_visit, visit_prefix, bindF, lift, liftE, ret.
  destruct (fetch task m) as [ma [e|r1]]; [reflexivity|].
  destruct (wait_for_response fuel timeout r1 ma) as [[mb [e|u]]|]; try reflexivity.
  destruct (fetch task mb) as [mc [e|r2]]; [reflexivity|].
  destruct (has_spawned_tasks r2) as [e|[|]]; reflexivity.
Qed.

Lemma spec_visit_prefix (fuel : nat) (timeout : Z) (task : json) (m : Machine) :
  spec_visit fuel timeout task m =
  bindF (visit_prefix fuel timeout task)
        (fun p => if p.2 then liftE (spawned_tasks p.1) else lift (ret [])) m.
Proof.
  unfold spec_visit, visit_prefix, bindF, lift, liftE, ret.
  destruct (fetch task m) as [ma [e|r1]]; [reflexivity|].
  destruct (wait_for_response fuel timeout r1 ma) as [[mb [e|u]]|]; try reflexivity.
  destruct (fetch task mb) as [mc [e|r2]]; [reflexivity|].
  destruct (has_spawned_tasks r2) as [e|[|]]; reflexivity.
Qed.

Lemma spec_visit_mono (n n' : nat) (timeout : Z) (task : json) (m : Machine)
    (out : Machine * (exn + list json)) :
  spec_visit n timeout task m = Some out -> (n <= n')%nat ->
  spec_visit n' timeout task m = Some out.
Proof.
  rewrite !spec_visit_prefix. unfold bindF. intros E Hle.
  destruct (visit_prefix n timeout task m) as [o|] eqn:Ev; [|discriminate E].
  rewrite (visit_prefix_mono _ _ _ _ _ _ Ev Hle). exact E.
Qed.

Lemma spec_tree_wait_mono (steps steps' fuel fuel' : nat) (timeout : Z)
    (stack : list json) (m : Machine) (out : Machine * (exn + unit)) :
  spec_tree_wait steps fuel timeout stack m = Some out ->
  (steps <= steps')%nat -> (fuel <= fuel')%nat ->
  spec_tree_wait steps' fuel' timeout stack m = Some out.
Proof.
  intros E Hs Hf. revert steps' stack m E Hs.
  induction steps as [|steps IH]; intros steps' stack m E Hs; [discriminate E|].
  destruct steps' as [|steps']; [lia|]. cbn [spec_tree_wait] in *.
  destruct stack as [|task rest]; [exact E|].
  unfold bindF in *.
  destruct (spec_visit fuel timeout task m) as [[m1 r]|] eqn:Ev; [|discriminate E].
  rewrite (spec_visit_mono _ _ _ _ _ _ Ev Hf).
  destruct r as [e|children]; [exact E|]. apply IH; [exact E | lia].
Qed.

Lemma report_loop_mono (rec rec' : option Response -> MF unit) (fuel fuel' : nat)
    (timeout : Z) (tasks : list json) (m : Machine) (out : Machine * (exn + unit)) :
  (∀ response m out, rec response m = Some out -> rec' response m = Some out) ->
  (fuel <= fuel')%nat ->
  report_loop rec fuel timeout tasks m = Some out ->
  report_loop rec' fuel' timeout tasks m = Some out.
Proof.
  intros Hrec Hf. revert m. induction tasks as [|task tasks IH]; intros m E; [exact E|].
  cbn [report_loop] in *. unfold bindF at 1 in E. unfold bindF at 1.
  rewrite report_visit_prefix in *. unfold bindF in *.
  destruct (visit_prefix fuel timeout task m) as [[m1 r]|] eqn:Ev; [|discriminate E].
  rewrite (visit_prefix_mono _ _ _ _ _ _ Ev Hf).
  destruct r as [e|[r2 [|]]]; [exact E| |]; cbn [fst snd] in *.
  - destruct (rec r2 m1) as [[m2 rr]|] eqn:Er; [|discriminate E].
    rewrite (Hrec _ _ _ Er). destruct rr as [e|u]; [exact E | apply IH, E].
  - apply IH, E.
Qed.

Lemma wait_for_report_mono (n n' : nat) (timeout : Z) (response : option Response)
    (m : Machine) (out : Machine * (exn + unit)) :
  wait_for_report n timeout response m = Some out -> (n <= n')%nat ->
  wait_for_report n' timeout response m = Some out.
Proof.
  revert n' response m out.
  induction n as [|n IH]; intros n' response m out E Hle; [discriminate E|].
  destruct n' as [|n']; [lia|]. cbn [wait_for_report] in *. unfold bindF, liftE in *.
  destruct (spawned_tasks response) as [e|children]; [exact E|].
  eapply report_loop_mono; [| |exact E]; [|lia].
  intros r m0 out0 E0. apply IH; [exact E0 | lia].
Qed.

Lemma tree_step (fuel fuel' steps : nat) (timeout : Z) (task : json) (rest : list json)
    (m m1 : Machine) (children : list json) (out : Machine * (exn + unit)) :
  spec_visit fuel timeout task m = Some (m1, inr children) ->
  spec_tree_wait steps fuel' timeout (children ++ rest) m1 = Some out ->
  spec_tree_wait (S steps) (Nat.max fuel fuel') timeout (task :: rest) m = Some out.
Proof.
  intros Ev Et. cbn [spec_tree_wait]. unfold bindF.
  rewrite (spec_visit_mono _ _ _ _ _ _ Ev (Nat.le_max_l _ _)).
  eapply spec_tree_wait_mono; [exact Et | lia | apply Nat.le_max_r].
Qed.

Lemma tree_step_fail (fuel : nat) (timeout : Z) (task : json) (rest : list json)
    (m m1 : Machine) (e : exn) :
  spec_visit fuel timeout task m = Some (m1, inl e) ->
  spec_tree_wait 1 fuel timeout (task :: rest) m = Some (m1, inl e).
Proof. intros Ev. cbn [spec_tree_wait]. unfold bindF. rewrite Ev. reflexivity. Qed.

Lemma report_loop_cons (rec : option Response -> MF unit) (fuel : nat) (timeout : Z)
    (task : json) (tasks : list json) (m m1 : Machine) (r2 : option Response) (b : bool) :
  visit_prefix fuel timeout task m = Some (m1, inr (r2, b)) ->
  report_loop rec fuel timeout (task :: tasks) m =
    if b then bindF (rec r2) (fun _ => report_loop rec fuel timeout tasks) m1
    else report_loop rec fuel timeout tasks m1.
Proof.
  intros Ev. cbn [report_loop]. unfold bindF at 1. rewrite report_visit_prefix.
  unfold bindF at 1. rewrite Ev. cbn [fst snd]. destruct b; [|reflexivity].
  unfold bindF. destruct (rec r2 m1) as [[m2 [e|u]]|]; reflexivity.
Qed.

Lemma report_loop_cons_fail (rec : option Response -> MF unit) (fuel : nat) (timeout : Z)
    (task : json) (tasks : list json) (m m1 : Machine) (e : exn) :
  visit_prefix fuel timeout task m = Some (m1, inl e) ->
  report_loop rec fuel timeout (task :: tasks) m = Some (m1, inl e).
Proof.
  intros Ev. cbn [report_loop]. unfold bindF at 1. rewrite report_visit_prefix.
  unfold bindF at 1. rewrite Ev. reflexivity.
Qed.

Lemma report_loop_more (n n' : nat) (timeout : Z) (tasks : list json) (m : Machine)
    (out : Machine * (exn + unit)) :
  report_loop (wait_for_report n timeout) n timeout tasks m = Some out -> (n <= n')%nat ->
  report_loop (wait_for_report n' timeout) n' timeout tasks m = Some out.
Proof.
  intros E Hle. eapply report_loop_mono; [|exact Hle|exact E].
  intros r m0 out0 E0. eapply wait_for_report_mono; eassumption.
Qed.

(** From the code to the walk of the stack. *)
Lemma visit_walks (rec : option Response -> MF unit) (fuel : nat) (timeout : Z)
    (task : json) (m : Machine) (out : Machine * (exn + unit)) :
  (∀ response m0 out0, rec response m0 = Some out0 ->
     match spawned_tasks response with
     | inl e => out0 = (m0, inl e)
     | inr children => walks timeout children m0 out0
     end) ->
  report_visit rec fuel timeout task m = Some out ->
  walks timeout [task] m out.
Proof.
  intros Hrec E. rewrite report_visit_prefix in E. unfold bindF in E.
  destruct (visit_prefix fuel timeout task m) as [[m1 [e|[r2 b]]]|] eqn:Ev;
    [| |discriminate E]; cbn [fst snd] in E.
  - injection E as <-. intros rest. exists 1%nat, fuel. cbn [app].
    apply tree_step_fail. rewrite spec_visit_prefix. unfold bindF. rewrite Ev. reflexivity.
  - destruct b.
    + specialize (Hrec _ _ _ E).
      destruct (spawned_tasks r2) as [e|children] eqn:Es.
      * subst out. intros rest. exists 1%nat, fuel. cbn [app].
        apply tree_step_fail. rewrite spec_visit_prefix. unfold bindF. rewrite Ev.
        cbn [fst snd]. unfold liftE. rewrite Es. reflexivity.
      * assert (Hv : spec_visit fuel timeout task m = Some (m1, inr children)).
        { rewrite spec_visit_prefix. unfold bindF. rewrite Ev. cbn [fst snd].
          unfold liftE. rewrite Es. reflexivity. }
        destruct out as [m' [e|u]]; cbn [walks] in *.
        -- intros rest. destruct (Hrec rest) as (steps & fuel' & Et).
           eexists; eexists. cbn [app]. eapply tree_step; eassumption.
        -- intros rest steps fuel0 out' Et0.
           destruct (Hrec rest steps fuel0 out' Et0) as (steps' & fuel' & Et).
           eexists; eexists. cbn [app]. eapply tree_step; eassumption.
    + injection E as <-. intros rest steps fuel0 out' Et0.
      exists (S steps), (Nat.max fuel fuel0). cbn [app].
      apply (tree_step fuel fuel0 steps timeout task rest m m1 [] out'); [|exact Et0].
      rewrite spec_visit_prefix. unfold bindF. rewrite Ev. reflexivity.
Qed.

Lemma report_loop_walks (rec : option Response -> MF unit) (fuel : nat) (timeout : Z)
    (tasks : list json) (m : Machine) (out : Machine * (exn + unit)) :
  (∀ response m0 out0, rec response m0 = Some out0 ->
     match spawned_tasks response with
     | inl e => out0 = (m0, inl e)
     | inr children => walks timeout children m0 out0
     end) ->
  report_loop rec fuel timeout tasks m = Some out ->
  walks timeout tasks m out.
Proof.
  intros Hrec. revert m. induction tasks as [|task tasks IH]; intros m E.
  - injection E as <-. intros rest steps fuel0 out' Et. exists steps, fuel0. exact Et.
  - cbn [report_loop] in E. unfold bindF at 1 in E.
    destruct (report_visit rec fuel timeout task m) as [[m1 [e|u]]|] eqn:Ev;
      [| |discriminate E]; pose proof (visit_walks _ _ _ _ _ _ Hrec Ev) as Hv.
    + injection E as <-. intros rest. exact (Hv (tasks ++ rest)).
    + specialize (IH _ E). destruct out as [m' [e|u']]; cbn [walks] in *.
      * intros rest. destruct (IH rest) as (steps & fuel0 & Et).
        exact (Hv (tasks ++ rest) _ _ _ Et).
      * intros rest steps fuel0 out' Et0.
        destruct (IH rest steps fuel0 out' Et0) as (steps' & fuel' & Et).
        exact (Hv (tasks ++ rest) _ _ _ Et).
Qed.

Lemma wait_for_report_walks (n : nat) (timeout : Z) (response : option Response)
    (m : Machine) (out : Machine * (exn + unit)) :
  wait_for_report n timeout response m = Some out ->
  match spawned_tasks response with
  | inl e => out = (m, inl e)
  | inr children => walks timeout children m out
  end.
Proof.
  revert response m out. induction n as [|n IH]; intros response m out E; [discriminate E|].
  cbn [wait_for_report] in E. unfold bindF, liftE in E.
  destruct (spawned_tasks response) as [e|children]; [congruence|].
  eapply report_loop_walks; [|exact E]. exact IH.
Qed.

(** From the walk of the stack to the code: a walk that ends has been
    through the top of the stack as the loop of the code goes through it. *)
Lemma walk_split (timeout : Z) (fuel N : nat) :
  ∀ (steps : nat) (tasks rest : list json) (m : Machine) (out : Machine * (exn + unit)),
    (steps <= N)%nat ->
    spec_tree_wait steps fuel timeout (tasks ++ rest) m = Some out ->
    ∃ n,
      (∃ m1 steps', report_loop (wait_for_report n timeout) n timeout tasks m
                      = Some (m1, inr tt) ∧
                    (steps' <= steps)%nat ∧
                    spec_tree_wait steps' fuel timeout rest m1 = Some out) ∨
      (∃ m1 e, report_loop (wait_for_report n timeout) n timeout tasks m
                 = Some (m1, inl e) ∧ out = (m1, inl e)).
Proof.
  induction N as [|N IH]; intros steps tasks rest m out Hle E;
    (destruct steps as [|s]; [discriminate E|]); [lia|].
  destruct tasks as [|task tasks].
  { exists 0%nat. left. exists m, (S s). auto. }
  cbn [app spec_tree_wait] in E. unfold bindF at 1 in E.
  rewrite spec_visit_prefix in E. unfold bindF at 1 in E.
  destruct (visit_prefix fuel timeout task m) as [[m1 [e|[r2 b]]]|] eqn:Ev;
    [| |discriminate E]; cbn [fst snd] in E.
  - exists fuel. right. exists m1, e. split; [|congruence].
    apply report_loop_cons_fail. exact Ev.
  - destruct b.
    + unfold liftE in E. destruct (spawned_tasks r2) as [e|children] eqn:Es.
      * exists (S fuel). right. exists m1, e. split; [|congruence].
        rewrite (report_loop_cons _ _ _ _ _ _ _ _ _
                   (visit_prefix_mono _ _ _ _ _ _ Ev (Nat.le_succ_diag_r _))).
        unfold bindF. cbn [wait_for_report]. unfold bindF, liftE. rewrite Es. reflexivity.
      * destruct (IH s children (tasks ++ rest) m1 out ltac:(lia) E) as [n1 Hn1].
        destruct Hn1 as [(m2 & s2 & El & Hs2 & Et)|(m2 & e & El & ->)].
        -- destruct (IH s2 tasks rest m2 out ltac:(lia) Et) as [n2 Hn2].
           set (n := Nat.max (Nat.max n1 n2) fuel).
           assert (Hhead : report_loop (wait_for_report (S n) timeout) (S n) timeout
                             (task :: tasks) m
                           = report_loop (wait_for_report (S n) timeout) (S n) timeout
                               tasks m2).
           { rewrite (report_loop_cons _ _ _ _ _ _ _ _ _
                        (visit_prefix_mono _ (S n) _ _ _ _ Ev ltac:(lia))).
             unfold bindF at 1. cbn [wait_for_report]. unfold bindF at 1, liftE.
             rewrite Es. rewrite (report_loop_more n1 n _ _ _ _ El ltac:(lia)).
             reflexivity. }
           exists (S n). rewrite Hhead.
           destruct Hn2 as [(m3 & s3 & El2 & Hs3 & Et3)|(m3 & e & El2 & ->)].
           ++ left. exists m3, s3. split; [|split; [lia | exact Et3]].
              eapply report_loop_more; [exact El2 | lia].
           ++ right. exists m3, e. split; [|reflexivity].
              eapply report_loop_more; [exact El2 | lia].
        -- set (n := Nat.max n1 fuel).
           exists (S n). right. exists m2, e. split; [|reflexivity].
           rewrite (report_loop_cons _ _ _ _ _ _ _ _ _
                      (visit_prefix_mono _ (S n) _ _ _ _ Ev ltac:(lia))).
           unfold bindF at 1. cbn [wait_for_report]. unfold bindF at 1, liftE.
           rewrite Es. rewrite (report_loop_more n1 n _ _ _ _ El ltac:(lia)).
           reflexivity.
    + cbn [app] in E.
      destruct (IH s tasks rest m1 out ltac:(lia) E) as [n1 Hn1].
      set (n := Nat.max n1 fuel).
      assert (Hhead : report_loop (wait_for_report n timeout) n timeout (task :: tasks) m
                      = report_loop (wait_for_report n timeout) n timeout tasks m1).
      { rewrite (report_loop_cons _ _ _ _ _ _ _ _ _
                   (visit_prefix_mono _ n _ _ _ _ Ev ltac:(lia))). reflexivity. }
      exists n. rewrite Hhead.
      destruct Hn1 as [(m2 & s2 & El & Hs2 & Et)|(m2 & e & El & ->)].
      * left. exists m2, s2. split; [|split; [lia | exact Et]].
        eapply report_loop_more; [exact El | lia].
      * right. exists m2, e. split; [|reflexivity].
        eapply report_loop_more; [exact El | lia].
Qed.

(** The recursion of [wait_for_report] and the walk with an explicit stack
    visit the references in the same order: one ends with a result exactly
    when the other ends with that result, the machine included. *)
Lemma wait_for_report_as_stack_walk (timeout : Z) (response : option Response)
    (m : Machine) (out : Machine * (exn + unit)) :
  (∃ fuel, wait_for_report fuel timeout response m = Some out) ↔
  (∃ steps fuel, spec_waitForReport steps fuel timeout response m = Some out).
Proof.
  unfold spec_waitForReport, bindF, liftE. split.
  - intros [n E]. pose proof (wait_for_report_walks _ _ _ _ _ E) as Hw.
    destruct (spawned_tasks response) as [e|children].
    + exists 0%nat, 0%nat. congruence.
    + destruct out as [m' [e|[]]]; cbn [walks] in Hw.
      * destruct (Hw []) as (steps & fuel & Et). rewrite app_nil_r in Et. eauto.
      * destruct (Hw [] 1%nat 0%nat (m', inr tt) eq_refl) as (steps & fuel & Et).
        rewrite app_nil_r in Et. eauto.
  - intros (steps & fuel & E).
    destruct (spawned_tasks response) as [e|children] eqn:Es.
    + exists 1%nat. cbn [wait_for_report]. unfold bindF, liftE. rewrite Es. exact E.
    + rewrite <- (app_nil_r children) in E.
      destruct (walk_split timeout fuel steps steps children [] m out (le_n _) E)
        as [n [(m1 & s1 & El & _ & Et)|(m1 & e & El & ->)]].
      * exists (S n). cbn [wait_for_report]. unfold bindF, liftE. rewrite Es.
        destruct s1 as [|s1]; [discriminate Et|].
        cbn [spec_tree_wait] in Et. unfold lift, ret in Et. injection Et as <-. exact El.
      * exists (S n). cbn [wait_for_report]. unfold bindF, liftE. rewrite Es. exact El.
Qed.

End TaskFacts.

(** ** The properties on the test double *)

Module DoubleFacts.
Import Double.

Lemma serve_answers (q : list string) : answers q.
Proof.
  intros w rq _. unfold sender. cbn. unfold serve.
  destruct (answer rq (scripts w)) as [r ss]. eauto.
Qed.

Lemma send_clock (rq : Request) (m : Machine) :
  clock (world m) <= clock (world (send rq m).1).
Proof.
  unfold send. destruct (_async (pulp m)).
  - destruct (last_request (pulp m)); cbn; lia.
  - cbn. unfold serve. destruct (answer _ _) as [r ss].
    repeat case_match; cbn; lia.
Qed.

Lemma reload_clock (t : Task) (m m' : Machine) (r : exn + Task) :
  reload t m = (m', r) -> time_time (world m) <= time_time (world m').
Proof.
  cbn [reload items time_time transport]. unfold Item_reload, asserting, try_finally.
  destruct (data t !! "task_id"%string) as [[| | |id| |]|];
    try (intros [= <- <-]; lia).
  pose proof (send_clock (request (String.append "/tasks/" id))
                (set_pulp (asserting_enter true None (pulp m)) m)) as Hc.
  destruct (send _ _) as [m1 [e|[r1|]]]; cbn in Hc |- *.
  - intros [= <- <-]. exact Hc.
  - destruct (body r1); intros [= <- <-]; exact Hc.
  - intros [= <- <-]. exact Hc.
Qed.

Lemma sleep_clock (d : Z) (w : server) :
  0 <= d -> time_time w + d <= time_time (time_sleep d w).
Proof. intros _. cbn. lia. Qed.

(** *** Examples: the testable properties of the specification *)

(** States waiting, running, running, finished: [wait] returns after it has
    seen [finished]. *)
Example wait_until_finished :
  waited (wait 10 120000 500 task_A
            (mkMachine pulp0
               (mkServer 0 [] [("http://pulp/tasks/A"%string,
                                [mkReply 200 (task_json "A" "waiting"); running "A";
                                 running "A"; finished "A"])])))
  = Some (replicate 4 "http://pulp/tasks/A"%string, Some (JStr "finished"), inr tt).
Proof. vm_compute. reflexivity. Qed.

(** A task that stays running: [wait] with a timeout of a second raises
    [TaskTimeoutError], after the second. *)
Example wait_times_out :
  match wait 10 1000 500 task_A
          (mkMachine pulp0 (mkServer 0 [] [("http://pulp/tasks/A"%string, [running "A"])])) with
  | Some (m, _, inl (TaskTimeoutError t task)) =>
      t = 1000 ∧ 1000 < clock (world m) ∧ data task !! "state"%string = Some (JStr "running")
  | _ => False
  end.
Proof. vm_compute. repeat split. Qed.

(** A task that ends in error: [wait] raises [TaskFailure] with the error the
    server reported. *)
Example wait_fails :
  match wait 10 120000 500 task_A
          (mkMachine pulp0
             (mkServer 0 [] [("http://pulp/tasks/A"%string, [running "A"; failed "A"])])) with
  | Some (_, _, inl (TaskFailure err task)) =>
      err = JStr "boom" ∧ data task !! "state"%string = Some (JStr "error")
  | _ => False
  end.
Proof. vm_compute. repeat split. Qed.

(** A tree of two levels: A, then B that A spawned, then C that follows A. *)
Example report_two_levels :
  seen (wait_for_report 3 300000 (Some (report ["A"; "C"]%string)) machine_tree)
  = Some (["http://pulp/tasks/A"; "http://pulp/tasks/A"; "http://pulp/tasks/A";
           "http://pulp/tasks/B"; "http://pulp/tasks/B"; "http://pulp/tasks/B";
           "http://pulp/tasks/C"; "http://pulp/tasks/C"; "http://pulp/tasks/C"]%string,
          inr tt).
Proof. vm_compute. reflexivity. Qed.

(** The failure of B ends the wait: C is not fetched. *)
Example report_failure_aborts :
  match wait_for_report 3 300000 (Some (report ["A"; "C"]%string)) machine_tree_failing with
  | Some (m, inl (TaskFailure err _)) =>
      err = JStr "boom" ∧
      sent (world m) = ["http://pulp/tasks/A"; "http://pulp/tasks/A"; "http://pulp/tasks/A";
                        "http://pulp/tasks/B"; "http://pulp/tasks/B"]%string
  | _ => False
  end.
Proof. vm_compute. repeat split. Qed.

(** A report whose only task is finished and spawned nothing. *)
Example report_single :
  seen (wait_for_report 2 300000 (Some (report ["C"]%string)) machine_tree)
  = Some (replicate 3 "http://pulp/tasks/C"%string, inr tt).
Proof. vm_compute. reflexivity. Qed.

(** *** The theorems at work *)

Lemma async_keeps_submission_order_witness :
  ∃ m' res vals,
    async None [1; 0]%nat (send_all [request "/a"; request "/b"]) machine0 = (m', res) ∧
    last_response (pulp m') = RTuple vals ∧
    length vals = 2%nat ∧
    ∀ i rq, [request "/a"; request "/b"] !! i = Some rq ->
      ∃ pre post r, [1; 0]%nat = pre ++ i :: post ∧
        (sender (rq (url (pulp machine0)) (auth (pulp machine0)))
                (world_after pre (resolve (pulp machine0) [request "/a"; request "/b"])
                             (world machine0))).2 = inr r ∧
        vals !! i = Some (Some r).
Proof.
  apply (async_keeps_submission_order None [1; 0]%nat
           [request "/a"; request "/b"] machine0).
  - reflexivity.
  - apply perm_swap.
  - apply serve_answers.
Defined.

Lemma async_exit_witness :
  (∃ m', async None [0%nat] raising_body machine0 = (m', inl (OtherError "boom")) ∧
     _async (pulp m') = false ∧
     world m' = world (raising_body (async_enter machine0).1).1) ∧
  (∃ m' vals,
     async None [0; 1]%nat (send_all [request "/tasks/A"; request "/tasks/A"]) machine0
       = (m', inr tt) ∧
     _async (pulp m') = false ∧
     last_response (pulp m') = RTuple vals ∧
     length vals = 2%nat ∧
     vals !! 0%nat = Some (Some (running "A")) ∧
     vals !! 1%nat = Some (Some (finished "A"))).
Proof.
  split.
  - destruct (async_exit None [0%nat] raising_body machine0 eq_refl)
      as (m1 & m' & res & E1 & E & Ha & Hb).
    pose proof (f_equal fst E1) as Em. cbn [fst] in Em. subst m1.
    change (raising_body (async_enter machine0).1)
      with ((raising_body (async_enter machine0).1).1,
            @inl exn unit (OtherError "boom")) in Hb.
    cbv beta iota in Hb. destruct Hb as (-> & Hw & _).
    exists m'. split; [exact E|]. split; [exact Ha | exact Hw].
  - set (body := send_all [request "/tasks/A"; request "/tasks/A"]).
    destruct (async_exit None [0; 1]%nat body machine0 eq_refl)
      as (m1 & m' & res & E1 & E & Ha & Hb).
    pose proof (f_equal fst E1) as Em. cbn [fst] in Em. subst m1.
    change (body (async_enter machine0).1)
      with ((body (async_enter machine0).1).1, @inr exn unit tt) in Hb.
    cbv beta iota in Hb.
    destruct (Hb ["http://pulp/tasks/A"; "http://pulp/tasks/A"]%string eq_refl)
      as (_ & Hres & vals & Hr & Hlv & Hslots).
    { reflexivity. }
    { apply answers_clean, serve_answers. }
    rewrite (Hres eq_refl) in E.
    exists m', vals. split; [exact E|]. split; [exact Ha|]. split; [exact Hr|].
    split; [exact Hlv|]. split.
    + destruct (Hslots 0%nat "http://pulp/tasks/A"%string eq_refl)
        as (pre & post & r & Es & Hsend & Hv).
      destruct pre as [|a [|b pre]];
        [ | discriminate Es | destruct pre; discriminate Es].
      vm_compute in Hsend. injection Hsend as <-. exact Hv.
    + destruct (Hslots 1%nat "http://pulp/tasks/A"%string eq_refl)
        as (pre & post & r & Es & Hsend & Hv).
      destruct pre as [|a [|b pre]]; [discriminate Es | | destruct pre; discriminate Es].
      injection Es as <- <-. vm_compute in Hsend. injection Hsend as <-. exact Hv.
Defined.

Lemma async_timeout_returns_witness :
  ∃ m' vals,
    @async flaky_transport (Some 1000) [0%nat]
      (@send_all flaky_transport [request "/ok"; request "/down"]) machine_flaky
      = (m', inr tt) ∧
    _async (pulp m') = false ∧
    last_response (pulp m') = @RTuple flaky_transport vals ∧
    length vals = 2%nat ∧
    vals !! 0%nat = Some (Some (mkReply 200 JNull)) ∧
    vals !! 1%nat = Some None.
Proof.
  destruct (@async_timeout_returns flaky_transport 1000 [0%nat]
              (@send_all flaky_transport [request "/ok"; request "/down"])
              machine_flaky (@async_enter flaky_transport machine_flaky).1
              (@send_all flaky_transport [request "/ok"; request "/down"]
                 (@async_enter flaky_transport machine_flaky).1).1
              ["http://pulp/ok"; "http://pulp/down"]%string)
    as (m' & vals & E & Ha & Hr & Hlv & Hnone & Hslots).
  - reflexivity.
  - reflexivity.
  - reflexivity.
  - reflexivity.
  - apply NoDup_singleton.
  - intros i Hi. apply list_elem_of_singleton in Hi. subst i. cbn. lia.
  - cbn. eexists; eexists. split; [reflexivity | exact I].
  - exists m', vals. split; [exact E|]. split; [exact Ha|]. split; [exact Hr|].
    split; [exact Hlv|]. split.
    + destruct (Hslots [] 0%nat [] "http://pulp/ok"%string eq_refl eq_refl)
        as (r & Hsend & Hv).
      vm_compute in Hsend. injection Hsend as <-. exact Hv.
    + apply Hnone; [cbn; lia|]. intros Hin.
      apply list_elem_of_singleton in Hin. discriminate Hin.
Defined.

Lemma async_nested_fails_witness :
  ∃ msg, async None [] (send_all [request "/b"]) machine_open
           = (machine_open, inl (RuntimeError msg)) ∧
         batch_open machine_open ["http://pulp/a"%string].
Proof.
  apply (async_nested_fails None [] (send_all [request "/b"]) machine_open
           ["http://pulp/a"%string]).
  split; reflexivity.
Defined.

Lemma send_in_batch_queues_witness :
  ∃ m', send (request "/b") machine_open = (m', inr None) ∧
        world m' = world machine_open ∧
        batch_open m' ["http://pulp/a"; "http://pulp/b"]%string ∧
        ∃ m'', send (request "/c")
                 (set_pulp (set_auth tt (set_url "http://other" (pulp m'))) m')
                 = (m'', inr None) ∧
               last_request (pulp m'')
                 = QTuple ["http://pulp/a"; "http://pulp/b"; "http://other/c"]%string.
Proof.
  destruct (send_in_batch_queues (request "/b") machine_open ["http://pulp/a"%string])
    as (m' & E & Hw & _ & Hopen & Hlater); [split; reflexivity|].
  exists m'. split; [exact E|]. split; [exact Hw|]. split; [exact Hopen|].
  destruct (Hlater "http://other"%string tt (request "/c")) as (m'' & E' & _ & Hq).
  exists m''. split; [exact E' | exact Hq].
Defined.


Lemma wait_outcome_witness :
  ∃ fuel m' self' res,
    wait fuel 1000 500 task_A machine0 = Some (m', self', res) ∧
    (∀ fuel' out, wait fuel' 1000 500 task_A machine0 = Some out -> out = (m', self', res)) ∧
    ∃ k self_k m_k c,
      cycles (time_time (world machine0) + 1000) 500 k task_A machine0 self_k m_k ∧
      ending (time_time (world machine0) + 1000) 500 self_k m_k c self' m' ∧
      (res = inr tt ↔
         settled c ∧ ∃ s, state self' = inr s ∧ in_states s error_states = false).
Proof.
  destruct (wait_outcome 1000 500 task_A machine0 ltac:(lia)) as [Hall Hends].
  destruct (Hends ltac:(lia) sleep_clock reload_clock)
    as (fuel & m' & self' & res & E & Hu).
  destruct (Hall fuel m' self' res E)
    as (k & self_k & m_k & c & Hc & He & _ & _ & _ & _ & Hret & _).
  exists fuel, m', self', res. split; [exact E|]. split; [exact Hu|].
  exists k, self_k, m_k, c. split; [exact Hc|]. split; [exact He | exact Hret].
Defined.


Example report_two_levels_stack_walk :
  ∃ out,
    (∃ steps fuel,
       @spec_waitForReport transport items steps fuel 300000
         (Some (report ["A"; "C"]%string)) machine_tree = Some out) ∧
    out.2 = inr tt.
Proof.
  exists (default (machine_tree, inr tt)
            (@wait_for_report transport items 3 300000
               (Some (report ["A"; "C"]%string)) machine_tree)).
  split.
  - apply (proj1 (@wait_for_report_as_stack_walk transport items 300000
                    (Some (report ["A"; "C"]%string)) machine_tree _)).
    exists 3%nat. vm_compute. reflexivity.
  - vm_compute. reflexivity.
Qed.

(** *** Where the specification and the code part *)

(** C2. A body that queues a request and then raises: on exit the request is
    still queued, the server has been sent nothing, and the last response is
    no tuple. *)
Lemma async_body_raises_no_dispatch :
  let out := async None [0%nat] raising_body machine0 in
  out.2 = inl (OtherError "boom") ∧
  last_request (pulp out.1) = QTuple ["http://pulp/a"%string] ∧
  sent (world out.1) = [] ∧
  ¬ (∃ vals, last_response (pulp out.1) = RTuple vals).
Proof.
  vm_compute. repeat split. intros [vals E]. discriminate E.
Qed.

(** C3. A batch of one request with a timeout of a second that runs out
    before the job finishes: the context is left without an exception, with a
    tuple that holds [None] for the request. *)
Lemma async_timeout_partial :
  let out := async (Some 1000) [] (send_all [request "/a"]) machine0 in
  out.2 = inr tt ∧
  last_request (pulp out.1) = QTuple ["http://pulp/a"%string] ∧
  last_response (pulp out.1) = RTuple [None].
Proof. vm_compute. repeat split. Qed.

(** C4. The server does not know the task: the reload raises an
    [AssertionError] and [wait] returns, with the task in state [running],
    which is no end state. *)
Lemma wait_gone_returns :
  waited (wait 1 1000 500 task_A machine_gone)
    = Some (["http://pulp/tasks/A"%string], Some (JStr "running"), inr tt) ∧
  in_states (JStr "running") end_states = false.
Proof. vm_compute. split; reflexivity. Qed.

End DoubleFacts.

(** ** More on the connection *)

Section ConnectionMore.
Context `{Transport}.

Lemma is_ok_fold_false (c : Pulp) (rs : list (option Response)) :
  foldl (is_ok_step c) (inr false) rs = inr false.
Proof. induction rs as [|r rs IH]; [reflexivity | exact IH]. Qed.

Lemma is_ok_fold_raised (c : Pulp) (e : exn) (rs : list (option Response)) :
  foldl (is_ok_step c) (inl e) rs = inl e.
Proof. induction rs as [|r rs IH]; [reflexivity | exact IH]. Qed.

Lemma is_ok_fold_all (c : Pulp) (rs : list Response) (rest : list (option Response)) :
  forallb (check_function c) rs = true ->
  foldl (is_ok_step c) (inr true) ((Some <$> rs) ++ rest)
    = foldl (is_ok_step c) (inr true) rest.
Proof.
  induction rs as [|r rs IH]; intros Hall; [reflexivity|].
  cbn in Hall. apply andb_prop in Hall as [Hr Hall].
  cbn. rewrite Hr. apply IH, Hall.
Qed.

Lemma is_ok_fold_responses (c : Pulp) (rs : list Response) :
  foldl (is_ok_step c) (inr true) (Some <$> rs) = inr (forallb (check_function c) rs).
Proof.
  induction rs as [|r rs IH]; [reflexivity|]. cbn.
  destruct (check_function c r); [exact IH | apply is_ok_fold_false].
Qed.

(** X1. On the tuple of a batch whose jobs all finished, [is_ok] is the
    conjunction of the check over the responses. *)
Theorem is_ok_tuple_all (c : Pulp) (rs : list Response) :
  last_response c = RTuple (Some <$> rs) ->
  is_ok c = inr (forallb (check_function c) rs).
Proof. intros Hl. unfold is_ok. rewrite Hl. apply is_ok_fold_responses. Qed.

(** X2. On a tuple, the first entry that is not a passing response decides:
    a response that fails the check makes [is_ok] false, whatever follows it,
    unfinished jobs included; the [None] of an unfinished job makes the
    class's check raise [AttributeError]. *)
Theorem is_ok_tuple_first_offender (c : Pulp) (ok : list Response)
    (rest : list (option Response)) :
  forallb (check_function c) ok = true ->
  (∀ bad, check_function c bad = false ->
     last_response c = RTuple ((Some <$> ok) ++ Some bad :: rest) ->
     is_ok c = inr false) ∧
  (check_function c = Pulp_check_function ->
   last_response c = RTuple ((Some <$> ok) ++ None :: rest) ->
   is_ok c = inl AttributeError).
Proof.
  intros Hall. split.
  - intros bad Hbad Hl. unfold is_ok. rewrite Hl, (is_ok_fold_all c ok _ Hall).
    cbn. rewrite Hbad. apply is_ok_fold_false.
  - intros _ Hl. unfold is_ok. rewrite Hl, (is_ok_fold_all c ok _ Hall).
    cbn. apply is_ok_fold_raised.
Qed.

(** X3. A synchronous [send] on a connection that does not assert returns
    the response whatever its status, and records the request and the
    response; [is_ok] then tells whether the response passes the check. *)
Theorem send_sync_unchecked (request : Request) (m : Machine) (w' : World) (r : Response) :
  _async (pulp m) = false ->
  _asserting (pulp m) = false ->
  session_send (world m) (request (url (pulp m)) (auth (pulp m))) (Some (verify (pulp m)))
    = (w', inr r) ->
  ∃ m', send request m = (m', inr (Some r)) ∧
    world m' = w' ∧
    last_request (pulp m') = QOne (request (url (pulp m)) (auth (pulp m))) ∧
    last_response (pulp m') = ROne r ∧
    is_ok (pulp m') = inr (check_function (pulp m) r).
Proof.
  intros Hs Ha Hsend. unfold send. rewrite Hs.
  cbn [verify set_last_request]. rewrite Hsend.
  cbn [_asserting set_last_response set_last_request]. rewrite Ha.
  eexists. split; [reflexivity|]. cbn. repeat split.
Qed.

(** X4. When the transport raises, a synchronous [send] passes the exception
    on: the request is recorded as the last one, the last response is the one
    of before, and the connection stays synchronous. *)
Theorem send_sync_transport_error (request : Request) (m : Machine) (w' : World) (e : exn) :
  _async (pulp m) = false ->
  session_send (world m) (request (url (pulp m)) (auth (pulp m))) (Some (verify (pulp m)))
    = (w', inl e) ->
  ∃ m', send request m = (m', inl e) ∧
    world m' = w' ∧
    last_request (pulp m') = QOne (request (url (pulp m)) (auth (pulp m))) ∧
    last_response (pulp m') = last_response (pulp m) ∧
    _async (pulp m') = false ∧
    _asserting (pulp m') = _asserting (pulp m).
Proof.
  intros Hs Hsend. unfold send. rewrite Hs.
  cbn [verify set_last_request]. rewrite Hsend.
  eexists. split; [reflexivity|]. cbn. repeat split. exact Hs.
Qed.

(** [asserting] around one synchronous [send] that the transport answers. *)
Lemma asserting_send_run (value : bool) (cf : option (Response -> bool)) (request : Request)
    (m : Machine) (w' : World) (r : Response) :
  _async (pulp m) = false ->
  session_send (world m) (request (url (pulp m)) (auth (pulp m))) (Some (verify (pulp m)))
    = (w', inr r) ->
  asserting value cf (send request) m
    = (mkMachine
         (set_check_function (check_function (pulp m))
            (set_last_response (ROne r)
               (set_last_request (QOne (request (url (pulp m)) (auth (pulp m)))) (pulp m))))
         w',
       if value && negb (default (check_function (pulp m)) cf r)
       then inl (AssertionError (not_ok_message (request (url (pulp m)) (auth (pulp m))) r))
       else inr (Some r)).
Proof.
  intros Hs Hsend. destruct m as [[u a v lr lq asserts asy pk cfa] w].
  cbn in Hs, Hsend. subst asy.
  unfold asserting, try_finally, send.
  destruct cf as [f|]; cbn; rewrite Hsend; cbn;
    destruct value; cbn; try reflexivity; unfold is_ok, check_function; cbn.
  - destruct (f r); reflexivity.
  - destruct (default Pulp_check_function cfa r); reflexivity.
Qed.

(** X5. [with pulp.asserting(value, check): pulp.send(request)] on a
    synchronous connection: the response is checked by [check] when one is
    given and by the connection's check otherwise; it is returned when
    [value] is false or it passes, and the [AssertionError] is raised when
    [value] is true and it fails. Either way the flag and the check of the
    connection are afterwards what they were, and the response is recorded. *)
Theorem asserting_send (value : bool) (cf : option (Response -> bool)) (request : Request)
    (m : Machine) (w' : World) (r : Response) :
  _async (pulp m) = false ->
  session_send (world m) (request (url (pulp m)) (auth (pulp m))) (Some (verify (pulp m)))
    = (w', inr r) ->
  ∃ m', asserting value cf (send request) m
          = (m', if value && negb (default (check_function (pulp m)) cf r)
                 then inl (AssertionError
                             (not_ok_message (request (url (pulp m)) (auth (pulp m))) r))
                 else inr (Some r)) ∧
    world m' = w' ∧
    _asserting (pulp m') = _asserting (pulp m) ∧
    check_function (pulp m') = check_function (pulp m) ∧
    last_response (pulp m') = ROne r.
Proof.
  intros Hs Hsend. rewrite (asserting_send_run value cf request m w' r Hs Hsend).
  eexists. split; [reflexivity|]. cbn. repeat split.
Qed.

(** The queue after the requests of a body were sent. *)
Lemma send_all_run (requests : list Request) (m : Machine) (q : list PreparedRequest) :
  batch_open m q ->
  send_all requests m =
    (set_pulp (set_last_request (QTuple (q ++ resolve (pulp m) requests)) (pulp m)) m,
     inr tt).
Proof.
  revert m q. induction requests as [|request requests IH]; intros m q Hopen.
  - destruct Hopen as [_ Hq]. destruct m as [[] w]. cbn in *. subst.
    rewrite app_nil_r. reflexivity.
  - cbn [send_all]. unfold bind. rewrite (send_queues request m q Hopen).
    rewrite (IH _ (q ++ [request (url (pulp m)) (auth (pulp m))])).
    + cbn. rewrite <- app_assoc. reflexivity.
    + destruct Hopen as [Ha _]. split; [exact Ha | reflexivity].
Qed.

(** A batch of [requests], from the run of its jobs. *)
Lemma async_send_all_run (timeout : option Z) (sched : list nat) (requests : list Request)
    (m : Machine) :
  _async (pulp m) = false ->
  let q := resolve (pulp m) requests in
  let c := set_last_request (QTuple q) (pulp m) in
  async timeout sched (send_all requests) m =
    match run_jobs (completions timeout sched (length q)) q
                   (replicate (length q) None) (world m) with
    | (w', inl e) => (mkMachine c w', inl e)
    | (w', inr vals) =>
        (mkMachine (set_last_response (RTuple vals) c) w',
         if _asserting (pulp m) then
           match is_ok (set_last_response (RTuple vals) (pulp m)) with
           | inr true => inr tt
           | inr false => inl (NameError "preprequest")
           | inl e => inl e
           end
         else inr tt)
    end.
Proof.
  intros Hs q c. subst q c.
  destruct m as [[u a v lr lq asserts asy pk cfa] w]. cbn in Hs. subst asy.
  unfold async, bind at 1, async_enter. cbn [pulp _async].
  unfold try_finally, bind.
  rewrite (send_all_run requests _ []); [|split; reflexivity].
  unfold async_process, resolve, is_ok. cbn.
  destruct (run_jobs _ _ _ w) as [w' [e|vals]]; [reflexivity|].
  destruct asserts; [|reflexivity].
  destruct (foldl _ _ vals) as [e|[|]]; reflexivity.
Qed.

Lemma all_finished (vals : list (option Response)) :
  (∀ i, (i < length vals)%nat -> ∃ r, vals !! i = Some (Some r)) ->
  ∃ rs, vals = Some <$> rs.
Proof.
  induction vals as [|v vals IH]; intros Hall; [exists []; reflexivity|].
  destruct (Hall 0%nat) as [r Hr]; [cbn; lia|]. cbn in Hr. injection Hr as ->.
  destruct IH as [rs ->].
  { intros i Hi. apply (Hall (S i)). cbn. lia. }
  exists (r :: rs). reflexivity.
Qed.

(** X6. A batch on an asserting connection whose jobs all finish: the tuple
    of the responses is stored and the async mode cleared; the context is
    left normally when every response passes the check, and with
    [NameError] for the name [preprequest] of line 119 when one fails. *)
Theorem async_asserting (timeout : option Z) (sched : list nat) (requests : list Request)
    (m : Machine) :
  _async (pulp m) = false ->
  _asserting (pulp m) = true ->
  sched ≡ₚ seq 0 (length requests) ->
  answers (resolve (pulp m) requests) ->
  ∃ m' rs,
    async timeout sched (send_all requests) m
      = (m', if forallb (check_function (pulp m)) rs then inr tt
             else inl (NameError "preprequest")) ∧
    last_response (pulp m') = RTuple (Some <$> rs) ∧
    length rs = length requests ∧
    _async (pulp m') = false.
Proof.
  intros Hs Ha Hp Hans. rewrite (async_send_all_run _ _ _ _ Hs). cbn zeta.
  set (q := resolve (pulp m) requests) in *.
  assert (Hlen : length q = length requests) by apply length_fmap.
  rewrite <- Hlen in Hp. rewrite (completions_all _ _ _ Hp).
  destruct (schedule_all sched (length q) Hp) as [Hnd Hin].
  destruct (run_jobs_ok q sched Hans (replicate (length q) None) (world m) Hnd)
    as (vals & Hrun & Hlv & Hout & Hjobs).
  { intros i Hi. apply Hin, Hi. }
  { apply length_replicate. }
  rewrite Hrun.
  destruct (all_finished vals) as [rs ->].
  { intros i Hi. rewrite Hlv in Hi.
    destruct (lookup_lt_is_Some_2 q i Hi) as [rq Hrq].
    destruct (list_elem_of_split sched i) as (pre & post & Esched); [apply Hin, Hi|].
    destruct (Hjobs pre i post rq Esched Hrq) as (r & _ & Hv). eauto. }
  rewrite Ha. unfold is_ok. cbn [last_response set_last_response].
  rewrite is_ok_fold_responses.
  change (check_function (set_last_response (RTuple (Some <$> rs)) (pulp m)))
    with (check_function (pulp m)).
  eexists; exists rs. split.
  - destruct (forallb (check_function (pulp m)) rs); reflexivity.
  - cbn. rewrite length_fmap in Hlv. repeat split; [congruence | exact Hs].
Qed.

Lemma run_jobs_fails (q : list PreparedRequest) (i : nat) (post : list nat)
    (rq : PreparedRequest) (w' : World) (e : exn) (pre : list nat) :
  q !! i = Some rq ->
  ∀ (w : World) (vals : list (option Response)),
    clean pre q w ->
    sender rq (world_after pre q w) = (w', inl e) ->
    run_jobs (pre ++ i :: post) q vals w = (world_after post q w', inl e).
Proof.
  intros Hi. induction pre as [|j pre IH]; intros w vals Hclean Hfail.
  - cbn in *. rewrite Hi, Hfail. rewrite run_jobs_world. reflexivity.
  - cbn in *. destruct (q !! j) as [rqj|].
    + destruct Hclean as (w1 & r & Hsend & Hclean). rewrite Hsend in *. cbn in Hfail.
      apply IH; assumption.
    + apply IH; assumption.
Qed.

(** X7. When a job fails, every job that finished before it having been
    answered, the context is left with the exception of that job, whatever
    the jobs behind it do: no tuple is stored (the last response is the one
    of before the batch), the queue is kept and the async mode is cleared.
    The jobs behind the failing one were spawned with it and have had their
    turn: the world is the one in which every job of the run has sent its
    request. *)
Theorem async_job_error (timeout : option Z) (sched : list nat) (requests : list Request)
    (m : Machine) (pre : list nat) (i : nat) (post : list nat) (rq : PreparedRequest)
    (w' : World) (e : exn) :
  _async (pulp m) = false ->
  completions timeout sched (length requests) = pre ++ i :: post ->
  clean pre (resolve (pulp m) requests) (world m) ->
  resolve (pulp m) requests !! i = Some rq ->
  sender rq (world_after pre (resolve (pulp m) requests) (world m)) = (w', inl e) ->
  ∃ m', async timeout sched (send_all requests) m = (m', inl e) ∧
    world m' = world_after post (resolve (pulp m) requests) w' ∧
    world m' = world_after (pre ++ i :: post) (resolve (pulp m) requests) (world m) ∧
    last_response (pulp m') = last_response (pulp m) ∧
    last_request (pulp m') = QTuple (resolve (pulp m) requests) ∧
    _async (pulp m') = false.
Proof.
  intros Hs Hjs Hclean Hi Hfail. rewrite (async_send_all_run _ _ _ _ Hs). cbn zeta.
  unfold resolve at 1. rewrite length_fmap, Hjs.
  pose proof (run_jobs_world (resolve (pulp m) requests) (pre ++ i :: post)
                (replicate (length (resolve (pulp m) requests)) None) (world m)) as Hw.
  rewrite (run_jobs_fails _ i post rq w' e pre Hi _ _ Hclean Hfail) in Hw |- *.
  eexists. split; [reflexivity|]. cbn in *. repeat split; assumption.
Qed.

Lemma run_jobs_empty (sched : list nat) (vals : list (option Response)) (w : World) :
  run_jobs sched [] vals w = (w, inr vals).
Proof. induction sched as [|i sched IH]; [reflexivity | exact IH]. Qed.

(** X8. A batch in which nothing is queued sends nothing and stores the empty
    tuple, on which [is_ok] holds: the context is left normally, asserting or
    not, whatever the timeout. *)
Theorem async_empty (timeout : option Z) (sched : list nat) (m : Machine) :
  _async (pulp m) = false ->
  ∃ m', async timeout sched (ret tt) m = (m', inr tt) ∧
    world m' = world m ∧
    last_response (pulp m') = RTuple [] ∧
    last_request (pulp m') = QTuple [] ∧
    is_ok (pulp m') = inr true ∧
    _async (pulp m') = false.
Proof.
  intros Hs. change (@ret H unit tt) with (send_all []).
  rewrite (async_send_all_run _ _ _ _ Hs). cbn zeta. cbn [resolve fmap list_fmap length].
  rewrite run_jobs_empty. cbn [replicate].
  eexists. split.
  - destruct (_asserting (pulp m)); reflexivity.
  - cbn. repeat split. exact Hs.
Qed.

Lemma send_keeps_queue_ok (request : Request) (m : Machine) :
  queue_ok (pulp m) -> queue_ok (pulp (send request m).1).
Proof.
  intros Hq. unfold send. destruct (_async (pulp m)) eqn:Ea.
  - destruct (Hq Ea) as [q E]. rewrite E. cbn. intros _. eauto.
  - cbn. repeat case_match; cbn; intros E; cbn in E; congruence.
Qed.

(** X9. The queue is a tuple whenever the connection is in async mode.
    Entering a batch makes it so, whatever the last request was: the async
    mode is set and the queue is the empty tuple. [send] keeps it so and, in
    async mode, stays there and returns [None] without raising; [asserting]
    around a body that keeps it so keeps it so; so do a new connection and
    [async] around any body. Hence the sends of the body of a batch, which
    start from the state the entry made, all return [None] and leave a
    queue of as many requests. *)
Theorem queue_ok_kept :
  (∀ u a v b, queue_ok (Pulp_init u a v b)) ∧
  (∀ m, _async (pulp m) = false ->
     ∃ m1, async_enter m = (m1, inr tt) ∧
       _async (pulp m1) = true ∧ last_request (pulp m1) = QTuple [] ∧
       queue_ok (pulp m1)) ∧
  (∀ request m, queue_ok (pulp m) -> queue_ok (pulp (send request m).1)) ∧
  (∀ timeout sched body m,
     queue_ok (pulp m) -> queue_ok (pulp (async timeout sched body m).1)) ∧
  (∀ value cf (body : M unit) m,
     (∀ m0, queue_ok (pulp m0) -> queue_ok (pulp (body m0).1)) ->
     queue_ok (pulp m) -> queue_ok (pulp (asserting value cf body m).1)) ∧
  (∀ request m,
     queue_ok (pulp m) -> _async (pulp m) = true ->
     (send request m).2 = inr None ∧ _async (pulp (send request m).1) = true) ∧
  (∀ requests m, _async (pulp m) = false ->
     ∃ m1 m2 q, async_enter m = (m1, inr tt) ∧
       send_all requests m1 = (m2, inr tt) ∧
       _async (pulp m2) = true ∧ last_request (pulp m2) = QTuple q ∧
       length q = length requests).
Proof.
  split; [|split; [|split; [|split; [|split; [|split]]]]].
  - intros u a v b E. discriminate E.
  - intros m Hs. destruct (async_enter_open m Hs) as (m1 & E1 & [Ha Hq] & _).
    exists m1. split; [exact E1|]. split; [exact Ha|]. split; [exact Hq|].
    intros _. exists []. exact Hq.
  - exact send_keeps_queue_ok.
  - intros timeout sched body m Hq. unfold async, bind at 1, async_enter.
    destruct (_async (pulp m)) eqn:Ea; [exact Hq|].
    unfold try_finally. destruct (bind body _ _) as [m' r]. cbn. intros E. discriminate E.
  - intros value cf body m Hbody Hq. unfold asserting, try_finally.
    assert (Hin : queue_ok (pulp (set_pulp (asserting_enter value cf (pulp m)) m))).
    { destruct cf; exact Hq. }
    specialize (Hbody _ Hin). destruct (body _) as [m' r]. exact Hbody.
  - intros request m Hq Ea. destruct (Hq Ea) as [q E]. unfold send. rewrite Ea, E.
    split; [reflexivity | exact Ea].
  - intros requests m Hs. destruct (async_enter_open m Hs) as (m1 & E1 & Hopen & _).
    destruct (send_all_queues requests m1 [] Hopen) as (m2 & E2 & [Ha2 Hq2] & _).
    exists m1, m2, (resolve (pulp m1) requests). split; [exact E1|]. split; [exact E2|].
    split; [exact Ha2|]. split; [exact Hq2|]. apply length_fmap.
Qed.

End ConnectionMore.

(** ** The public key *)

Section PublicKeyFacts.
Context `{Keys}.

(** X10. Once [pubkey] has returned a key, a further call returns the same
    key and leaves the machine alone: the world is not asked again. *)
Theorem pubkey_cached (m m1 : Machine) (k : Key) :
  pubkey m = (m1, inr k) ->
  pubkey m1 = (m1, inr k) ∧ _pubkey (pulp m1) = Some k.
Proof.
  unfold pubkey at 1. destruct (_pubkey (pulp m)) as [k0|] eqn:Ek.
  - intros [= <- <-]. unfold pubkey. rewrite Ek. auto.
  - destruct (asserting _ _ _ m) as [m2 [e|[r|]]]; try discriminate.
    destruct (String.eqb _ _); [discriminate|].
    destruct (load_pub_key_bio _) as [e|k1]; [discriminate|].
    intros [= <- <-]. unfold pubkey. cbn. auto.
Qed.

(** X11. [pubkey] on a synchronous connection that holds no key and whose
    request is answered: the response is checked even if the connection does
    not assert; a response that fails the check raises the [AssertionError]
    of [send], an empty body the one of line 130, a body that does not load
    the error of the loader; otherwise the key is returned. In every case
    the asserting flag is afterwards what it was; the key that is returned
    is kept in [_pubkey], and no key is kept unless one is returned. *)
Theorem pubkey_fetch (m : Machine) (w' : World) (r : Response) :
  _pubkey (pulp m) = None ->
  _async (pulp m) = false ->
  let rq := StaticGET "rsa_pub.key" (url (pulp m)) (auth (pulp m)) in
  session_send (world m) rq (Some (verify (pulp m))) = (w', inr r) ->
  ∃ m', pubkey m
          = (m', if negb (check_function (pulp m) r)
                 then inl (AssertionError (not_ok_message rq r))
                 else if String.eqb (content r) ""
                 then inl (AssertionError (empty_content_message r))
                 else match load_pub_key_bio (content r) with
                      | inl e => inl e
                      | inr k => inr k
                      end) ∧
    world m' = w' ∧
    _asserting (pulp m') = _asserting (pulp m) ∧
    last_response (pulp m') = ROne r ∧
    (∀ k, (pubkey m).2 = inr k -> _pubkey (pulp m') = Some k) ∧
    (∀ k, _pubkey (pulp m') = Some k -> (pubkey m).2 = inr k).
Proof.
  intros Hk Hs rq Hsend. unfold pubkey. rewrite Hk.
  rewrite (asserting_send_run true None _ m w' r Hs Hsend). cbn [default andb].
  fold rq. destruct (check_function (pulp m) r); cbn [negb].
  - destruct (String.eqb (content r) "").
    + eexists. split; [reflexivity|]. cbn. rewrite Hk. repeat split; discriminate.
    + destruct (load_pub_key_bio (content r)) as [e|k].
      * eexists. split; [reflexivity|]. cbn. rewrite Hk. repeat split; discriminate.
      * eexists. split; [reflexivity|]. cbn. repeat split; congruence.
  - eexists. split; [reflexivity|]. cbn. rewrite Hk. repeat split; discriminate.
Qed.

(** X12. [pubkey] while a batch is open, on a connection that holds no key:
    the request for the key is queued, not sent, and [AttributeError] is
    raised, for [send] returned [None]; the batch stays open. *)
Theorem pubkey_in_batch (m : Machine) (q : list PreparedRequest) :
  _pubkey (pulp m) = None ->
  batch_open m q ->
  ∃ m', pubkey m = (m', inl AttributeError) ∧
    world m' = world m ∧
    batch_open m' (q ++ [StaticGET "rsa_pub.key" (url (pulp m)) (auth (pulp m))]) ∧
    _asserting (pulp m') = _asserting (pulp m) ∧
    _pubkey (pulp m') = None.
Proof.
  intros Hk [Ha Hq]. unfold pubkey. rewrite Hk.
  unfold asserting, try_finally.
  rewrite (send_queues _ _ q); [|split; assumption].
  eexists. split; [reflexivity|]. cbn. repeat split; assumption.
Qed.

End PublicKeyFacts.

(** ** [ResponseLike] *)

(** X13. Without a text, a [ResponseLike] is equal to exactly the objects
    that have its status code; an object without [status_code] is not equal
    to it. *)
Theorem ResponseLike_eq_status (self : ResponseLike.t) (other : ResponseLike.operand) :
  ResponseLike.text self = None ->
  (ResponseLike.truth (ResponseLike.eq self other) = true ↔
   ResponseLike.operand_status_code other = Some (ResponseLike.status_code self)) ∧
  ∃ b, ResponseLike.eq self other = ResponseLike.Bool b.
Proof.
  intros Ht. unfold ResponseLike.eq. rewrite Ht.
  destruct (ResponseLike.operand_status_code other) as [c|]; cbn.
  - split; [|eauto]. rewrite Z.eqb_eq. split; congruence.
  - split; [|eauto]. split; discriminate.
Qed.

(** X14. With a text, [==] yields the tuple of line 187 for every object
    that has a status code and a text, and a tuple is true: the comparison
    holds whatever the two status codes and the two texts are. It is false
    only for an object that lacks one of the attributes. *)
Theorem ResponseLike_eq_text (self : ResponseLike.t) (t : string)
    (other : ResponseLike.operand) :
  ResponseLike.text self = Some t ->
  ResponseLike.truth (ResponseLike.eq self other) = true ↔
  is_Some (ResponseLike.operand_status_code other) ∧
  is_Some (ResponseLike.operand_text other).
Proof.
  intros Ht. unfold ResponseLike.eq. rewrite Ht.
  destruct (ResponseLike.operand_status_code other) as [c|],
           (ResponseLike.operand_text other) as [t'|]; cbn.
  - split; [eauto|reflexivity].
  - split; [discriminate|]. intros [_ [x Hx]]. discriminate Hx.
  - split; [discriminate|]. intros [[x Hx] _]. discriminate Hx.
  - split; [discriminate|]. intros [[x Hx] _]. discriminate Hx.
Qed.

(** ** [normalize_url] *)

Section UrlFacts.
Import Stdlib.Strings.Ascii.

Lemma two_slashes_behind_slash (s : string) :
  two_slashes (String "/" s) = false -> two_slashes s = false.
Proof. destruct s as [|a [|b s]]; cbn; intros E; try reflexivity; rewrite E; reflexivity. Qed.

(** Behind the slashes of a match the scan gives no slash. *)
Lemma sub_scan_skips (s : string) : two_slashes (String "/" (sub_scan true s)) = false.
Proof.
  induction s as [|c rest IH]; [reflexivity|]. cbn [sub_scan andb].
  destruct (is_slash c) eqn:Ec; [exact IH|].
  destruct (negb (is_colon c) && two_slashes rest); cbn; rewrite Ec; reflexivity.
Qed.

Lemma sub_scan_two_slashes (s : string) :
  two_slashes (sub_scan false s) = true -> two_slashes s = true.
Proof.
  destruct s as [|c rest]; [discriminate|]. cbn [sub_scan andb].
  destruct (negb (is_colon c) && two_slashes rest) eqn:Em.
  - apply andb_prop in Em as [_ Em].
    destruct rest as [|a [|b rest]]; try discriminate Em.
    cbn in Em. apply andb_prop in Em as [Ea _].
    cbn [two_slashes]. rewrite Ea. intros E. apply andb_prop in E as [-> _]. reflexivity.
  - destruct rest as [|d rest]; [discriminate|]. cbn [sub_scan andb].
    destruct (negb (is_colon d) && two_slashes rest); exact (fun E => E).
Qed.

Lemma sub_scan_unstacked (s : string) (skipping : bool) :
  stacked (sub_scan skipping s) = false.
Proof.
  revert skipping. induction s as [|c rest IH]; intros skipping; [reflexivity|].
  cbn [sub_scan]. destruct (skipping && is_slash c); [apply IH|].
  destruct (negb (is_colon c) && two_slashes rest) eqn:Em.
  - cbn [stacked]. rewrite (sub_scan_skips rest), andb_false_r.
    rewrite (two_slashes_behind_slash _ (sub_scan_skips rest)), andb_false_r.
    rewrite IH. reflexivity.
  - cbn [stacked]. rewrite IH, orb_false_r.
    destruct (negb (is_colon c)); [|reflexivity]. cbn in Em |- *.
    destruct (two_slashes (sub_scan false rest)) eqn:E2; [|reflexivity].
    apply sub_scan_two_slashes in E2. congruence.
Qed.

Lemma sub_scan_fixed (s : string) : stacked s = false -> sub_scan false s = s.
Proof.
  induction s as [|c rest IH]; [reflexivity|]. cbn [stacked sub_scan andb].
  intros E. apply orb_false_elim in E as [Em Es]. rewrite Em, (IH Es). reflexivity.
Qed.

(** X15. In what [normalize_url] returns, no character other than a colon
    has two slashes behind it. *)
Theorem normalize_url_unstacked (url : string) : stacked (normalize_url url) = false.
Proof. apply sub_scan_unstacked. Qed.

(** X16. [normalize_url] leaves a url as it is exactly when no character
    other than a colon has two slashes behind it; so normalizing twice is
    normalizing once. *)
Theorem normalize_url_fixed (url : string) :
  (normalize_url url = url ↔ stacked url = false) ∧
  normalize_url (normalize_url url) = normalize_url url.
Proof.
  split; [split|].
  - intros E. rewrite <- E. apply sub_scan_unstacked.
  - apply sub_scan_fixed.
  - apply sub_scan_fixed, sub_scan_unstacked.
Qed.

Lemma sub_scan_unslashed (s : string) (skipping : bool) :
  unslashed (sub_scan skipping s) = unslashed s.
Proof.
  revert skipping. induction s as [|c rest IH]; intros skipping; [reflexivity|].
  cbn [sub_scan]. destruct (is_slash c) eqn:Ec.
  - rewrite andb_true_r. destruct skipping; cbn [unslashed]; rewrite Ec; [apply IH|].
    destruct (negb (is_colon c) && two_slashes rest); cbn [unslashed]; rewrite ?Ec; cbn;
      apply IH.
  - rewrite andb_false_r.
    destruct (negb (is_colon c) && two_slashes rest); cbn [unslashed]; rewrite Ec; cbn;
      rewrite IH; reflexivity.
Qed.

Lemma sub_scan_length (s : string) :
  (∀ skipping, (String.length (sub_scan skipping s) <= String.length s)%nat) ∧
  (two_slashes (String "/" s) = true ->
   (S (String.length (sub_scan true s)) <= String.length s)%nat).
Proof.
  induction s as [|c rest [IH1 IH2]]; [split; [reflexivity | discriminate]|].
  split.
  - intros skipping. cbn [sub_scan]. destruct (skipping && is_slash c).
    + specialize (IH1 true). cbn. lia.
    + destruct (negb (is_colon c) && two_slashes rest) eqn:Em.
      * apply andb_prop in Em as [_ Em].
        assert (Hlead : two_slashes (String "/" rest) = true).
        { destruct rest as [|a [|b rest]]; try discriminate Em.
          cbn in Em |- *. apply andb_prop in Em as [-> _]. reflexivity. }
        specialize (IH2 Hlead). cbn. lia.
      * specialize (IH1 false). cbn. lia.
  - cbn [two_slashes]. intros E. apply andb_prop in E as [_ Ec].
    cbn [sub_scan andb]. rewrite Ec. specialize (IH1 true). cbn. lia.
Qed.

(** X17. [normalize_url] takes out slashes and nothing else: the characters
    that are no slashes are those of the url, in their order, and the result
    is no longer than the url. *)
Theorem normalize_url_drops_slashes (url : string) :
  unslashed (normalize_url url) = unslashed url ∧
  (String.length (normalize_url url) <= String.length url)%nat.
Proof.
  split; [apply sub_scan_unslashed | apply (proj1 (sub_scan_length url))].
Qed.

Lemma unslashed_length (s : string) :
  (String.length (unslashed s) <= String.length s)%nat.
Proof.
  induction s as [|c rest IH]; [reflexivity|]. cbn.
  destruct (is_slash c); cbn; lia.
Qed.

Lemma unslashed_cons (c : ascii) (s : string) :
  unslashed (String c s) = String c s -> is_slash c = false ∧ unslashed s = s.
Proof.
  cbn. destruct (is_slash c).
  - intros E. pose proof (unslashed_length s) as Hl. rewrite E in Hl. cbn in Hl. lia.
  - intros [= E]. auto.
Qed.

Lemma two_slashes_head (a : ascii) (s : string) :
  is_slash a = false -> two_slashes (String a s) = false.
Proof. intros Ea. destruct s as [|b s]; cbn; rewrite ?Ea; reflexivity. Qed.

Lemma sub_scan_separator (rest : string) :
  sub_scan false (String ":" (String "/" (String "/" rest)))
    = String ":" (String "/" (String "/" (sub_scan true rest))).
Proof.
  destruct rest as [|d rest]; [reflexivity|].
  cbn [sub_scan andb]. change (is_colon ":") with true. change (is_colon "/") with false.
  cbn [negb andb two_slashes]. change (is_slash "/") with true. cbn [andb].
  destruct (is_slash d); [reflexivity|].
  destruct rest as [|b rest]; reflexivity.
Qed.

(** X18. The separator behind a scheme survives: for a scheme without a
    slash, the normalized url begins with the scheme, the colon and exactly
    two slashes, however many slashes the url had there. *)
Theorem normalize_url_scheme (scheme rest : string) :
  unslashed scheme = scheme ->
  ∃ tail,
    normalize_url (String.append scheme (String ":" (String "/" (String "/" rest))))
      = String.append scheme (String ":" (String "/" (String "/" tail))) ∧
    two_slashes (String "/" tail) = false ∧
    unslashed tail = unslashed rest.
Proof.
  intros Hs. exists (sub_scan true rest).
  split; [|split; [apply sub_scan_skips | apply sub_scan_unslashed]].
  unfold normalize_url. induction scheme as [|c scheme IH].
  - apply sub_scan_separator.
  - apply unslashed_cons in Hs as [Ec Hs].
    assert (E2 : two_slashes (String.append scheme
                    (String ":" (String "/" (String "/" rest)))) = false).
    { destruct scheme as [|d scheme]; [reflexivity|].
      pose proof (unslashed_cons _ _ Hs) as [Ed _].
      exact (two_slashes_head d
               (String.append scheme (String ":" (String "/" (String "/" rest)))) Ed). }
    change (sub_scan false
              (String c (String.append scheme (String ":" (String "/" (String "/" rest)))))
            = String c (String.append scheme
                (String ":" (String "/" (String "/" (sub_scan true rest)))))).
    cbn [sub_scan andb]. rewrite E2, andb_false_r, (IH Hs). reflexivity.
Qed.

End UrlFacts.

(** ** More on tasks *)

(** X19. [task.id = other] and then [task.id] gives [other]; the setter
    leaves every other key of the data, the state among them, as it was; and
    the getter raises [KeyError] exactly on data without [task_id]. *)
Theorem id_set_id (other : json) (self : Task) :
  id (set_id other self) = inr other ∧
  (∀ k, k ≠ "task_id"%string -> data (set_id other self) !! k = data self !! k) ∧
  state (set_id other self) = state self ∧
  (id self = inl (KeyError "task_id") ↔ data self !! "task_id"%string = None).
Proof.
  unfold id, set_id, state. cbn [data]. split; [|split; [|split]].
  - rewrite lookup_insert_eq. reflexivity.
  - intros k Hk. apply lookup_insert_ne. congruence.
  - rewrite lookup_insert_ne; [reflexivity | discriminate].
  - destruct (data self !! "task_id"%string); split; congruence.
Qed.

Section TaskMore.
Context `{Items}.

(** X20. With a negative timeout [wait] raises [TaskTimeoutError] at once:
    it neither sleeps nor reloads, whatever the state of the task. *)
Theorem wait_negative_timeout (fuel : nat) (timeout frequency : Z) (self : Task)
    (m : Machine) :
  timeout < 0 ->
  wait (S fuel) timeout frequency self m
    = Some (m, self, inl (TaskTimeoutError timeout self)).
Proof.
  intros Ht. unfold wait. cbn [wait_loop].
  assert (E : (time_time (world m) <=? time_time (world m) + timeout) = false)
    by (apply Z.leb_gt; lia).
  rewrite E. reflexivity.
Qed.

(** X21. With a positive timeout, [wait] sleeps and reloads before it looks
    at the state: when the first reload shows an end state, the result is
    decided by the reloaded data alone, whatever state the task held at
    entry. *)
Theorem wait_first_reload_decides (fuel : nat) (timeout frequency : Z) (self self' : Task)
    (m m' : Machine) (s : json) :
  0 < timeout -> 0 <= frequency ->
  reload self (set_world (time_sleep frequency (world m)) m) = (m', inr self') ->
  state self' = inr s ->
  in_states s end_states = true ->
  wait (S fuel) timeout frequency self m = Some (m', self', wait_verdict self').
Proof.
  intros Ht Hf Hr Hs He. unfold wait. cbn [wait_loop].
  assert (E : (time_time (world m) <=? time_time (world m) + timeout) = true)
    by (apply Z.leb_le; lia).
  assert (Ef : (frequency <? 0) = false) by (apply Z.ltb_ge; exact Hf).
  rewrite E, Ef, Hr, Hs, He. reflexivity.
Qed.

Lemma wait_loop_S (fuel : nat) (delta frequency : Z) (self : Task) (m : Machine) :
  wait_loop (S fuel) delta frequency self m =
    if time_time (world m) <=? delta then
      if frequency <? 0 then Some (m, self, LoopRaise (OtherError "IOError"))
      else
        match reload self (set_world (time_sleep frequency (world m)) m) with
        | (m2, inl e) =>
            if is_AssertionError e then Some (m2, self, LoopBreak)
            else Some (m2, self, LoopRaise e)
        | (m2, inr self') =>
            match state self' with
            | inl e => Some (m2, self', LoopRaise e)
            | inr s =>
                if in_states s end_states then Some (m2, self', LoopBreak)
                else wait_loop fuel delta frequency self' m2
            end
        end
    else Some (m, self, LoopElse).
Proof. reflexivity. Qed.

Lemma wait_loop_bound (delta frequency : Z) :
  0 < frequency ->
  (∀ d w, 0 <= d -> time_time w + d <= time_time (time_sleep d w)) ->
  (∀ t m m' r, reload t m = (m', r) -> time_time (world m) <= time_time (world m')) ->
  ∀ (n : nat) (self : Task) (m : Machine),
    delta - time_time (world m) < Z.of_nat n * frequency ->
    ∃ out, wait_loop (S n) delta frequency self m = Some out.
Proof.
  intros Hf Hsleep Hreload. induction n as [|n IH]; intros self m Hn; rewrite wait_loop_S.
  - assert (E : (time_time (world m) <=? delta) = false) by (apply Z.leb_gt; lia).
    rewrite E. eauto.
  - destruct (time_time (world m) <=? delta) eqn:E; [|eauto].
    assert (Ef : (frequency <? 0) = false) by (apply Z.ltb_ge; lia).
    rewrite Ef.
    destruct (reload self _) as [m2 [e|self1]] eqn:Hr.
    { destruct (is_AssertionError e); eauto. }
    destruct (state self1) as [e|s]; [eauto|].
    destruct (in_states s end_states); [eauto|].
    apply IH.
    pose proof (Hreload _ _ _ _ Hr) as H1.
    pose proof (Hsleep frequency (world m) ltac:(lia)) as H2.
    cbn in H1. rewrite Nat2Z.inj_succ, Z.mul_succ_l in Hn. lia.
Qed.

(** X22. With a clock that sleeping moves on by the time slept at least and
    that reloading does not set back, [wait] is over within [n + 1] tests of
    the loop condition, for every [n] with [n * frequency > timeout]. *)
Theorem wait_cycle_bound (n : nat) (timeout frequency : Z) (self : Task) (m : Machine) :
  0 < frequency ->
  (∀ d w, 0 <= d -> time_time w + d <= time_time (time_sleep d w)) ->
  (∀ t m m' r, reload t m = (m', r) -> time_time (world m) <= time_time (world m')) ->
  timeout < Z.of_nat n * frequency ->
  ∃ out, wait (S n) timeout frequency self m = Some out.
Proof.
  intros Hf Hsleep Hreload Hn. unfold wait.
  destruct (wait_loop_bound (time_time (world m) + timeout) frequency Hf Hsleep Hreload
              n self m) as [[[m' self'] x] E]; [lia|].
  rewrite E. destruct x; eauto.
Qed.

Lemma wait_loop_else (fuel : nat) (delta frequency : Z) (self self' : Task)
    (m m' : Machine) :
  wait_loop fuel delta frequency self m = Some (m', self', LoopElse) ->
  delta < time_time (world m').
Proof.
  revert self m. induction fuel as [|fuel IH]; intros self m E; [discriminate E|].
  cbn [wait_loop] in E.
  destruct (time_time (world m) <=? delta) eqn:Et.
  - destruct (frequency <? 0); [discriminate E|].
    destruct (reload self _) as [m2 [e|self1]].
    { destruct (is_AssertionError e); discriminate E. }
    destruct (state self1) as [e|s]; [discriminate E|].
    destruct (in_states s end_states); [discriminate E|].
    exact (IH _ _ E).
  - injection E as <- <-. apply Z.leb_gt. exact Et.
Qed.

Lemma wait_loop_raise (fuel : nat) (delta frequency : Z) (self self' : Task)
    (m m' : Machine) (e : exn) :
  wait_loop fuel delta frequency self m = Some (m', self', LoopRaise e) ->
  is_AssertionError e = false.
Proof.
  revert self m. induction fuel as [|fuel IH]; intros self m E; [discriminate E|].
  cbn [wait_loop] in E.
  destruct (time_time (world m) <=? delta); [|discriminate E].
  destruct (frequency <? 0); [injection E as <- <- <-; reflexivity|].
  destruct (reload self _) as [m2 [e0|self1]].
  { destruct (is_AssertionError e0) eqn:Ea; [discriminate E|].
    injection E as <- <- <-. exact Ea. }
  unfold state in E.
  destruct (data self1 !! "state"%string) as [s|].
  - destruct (in_states s end_states); [discriminate E|]. exact (IH _ _ E).
  - injection E as <- <- <-. reflexivity.
Qed.

(** X23. When [wait] raises [TaskTimeoutError], the clock is past the
    deadline taken at entry, and the exception holds the timeout of the call
    and the task as the call leaves it: a timeout that a reload raised is
    never passed on as the timeout of [wait]. *)
Theorem wait_timeout_not_early (fuel : nat) (timeout frequency : Z) (self self' : Task)
    (m m' : Machine) (t : Z) (task : Task) :
  wait fuel timeout frequency self m = Some (m', self', inl (TaskTimeoutError t task)) ->
  time_time (world m) + timeout < time_time (world m') ∧ t = timeout ∧ task = self'.
Proof.
  unfold wait. destruct (wait_loop fuel _ frequency self m) as [[[m1 self1] x]|] eqn:E;
    [|discriminate].
  destruct x as [| |e].
  - intros [= <- <- <- <-]. split; [|auto]. exact (wait_loop_else _ _ _ _ _ _ _ E).
  - intros [= <- <- Hv]. exfalso. exact (wait_verdict_no_timeout _ _ _ Hv).
  - intros [= <- <- ->]. apply wait_loop_raise in E. discriminate E.
Qed.

Lemma wait_each_app (fuel : nat) (timeout : Z) (ts1 ts2 : list Task) (m : Machine) :
  wait_each fuel timeout (ts1 ++ ts2) m
    = bindF (wait_each fuel timeout ts1) (fun _ => wait_each fuel timeout ts2) m.
Proof.
  revert m. induction ts1 as [|t ts1 IH]; intros m; [reflexivity|].
  cbn [app wait_each]. unfold bindF at 1. cbn [wait_each].
  destruct (wait fuel timeout default_frequency t m) as [[[m1 t1] [e|u]]|];
    try reflexivity.
  rewrite IH. reflexivity.
Qed.

(** X24. [wait_for_response] on a response that holds several tasks waits on
    them in their order and stops at the first [wait] that raises: its
    exception is the result and the machine is as that [wait] left it, the
    tasks behind not having been waited on. *)
Theorem wait_for_response_first_failure (fuel : nat) (timeout : Z)
    (response : option Response) (ts1 ts2 : list Task) (t t' : Task)
    (m m1 m2 : Machine) (e : exn) :
  from_response response = inr (Many (ts1 ++ t :: ts2)) ->
  wait_each fuel timeout ts1 m = Some (m1, inr tt) ->
  wait fuel timeout default_frequency t m1 = Some (m2, t', inl e) ->
  wait_for_response fuel timeout response m = Some (m2, inl e).
Proof.
  intros Hf H1 Hw. unfold wait_for_response, bindF at 1, liftE. rewrite Hf.
  rewrite wait_each_app. unfold bindF. rewrite H1. cbn [wait_each]. rewrite Hw.
  reflexivity.
Qed.

(** X25. What [wait_for_report] does of a report without references: with
    [spawned_tasks] missing it raises [KeyError]; with a value that is no
    list, or with the empty list, it returns at once; when the report does
    not parse, the error of the parser is passed on. In each case nothing is
    sent. *)
Theorem wait_for_report_no_references (fuel : nat) (timeout : Z)
    (response : option Response) (m : Machine) :
  (∀ e, from_report response = inl e ->
     wait_for_report (S fuel) timeout response m = Some (m, inl e)) ∧
  (∀ report, from_report response = inr report ->
     report !! "spawned_tasks"%string = None ->
     wait_for_report (S fuel) timeout response m
       = Some (m, inl (KeyError "spawned_tasks"))) ∧
  (∀ report v, from_report response = inr report ->
     report !! "spawned_tasks"%string = Some v ->
     (∀ task rest, v ≠ JList (task :: rest)) ->
     wait_for_report (S fuel) timeout response m = Some (m, inr tt)).
Proof.
  cbn [wait_for_report]. unfold bindF, liftE, spawned_tasks.
  split; [|split].
  - intros e ->. reflexivity.
  - intros report -> ->. reflexivity.
  - intros report v -> -> Hv. destruct v as [| | | |[|task rest]|]; try reflexivity.
    destruct (Hv task rest eq_refl).
Qed.

Lemma report_loop_app (rec : option Response -> MF unit) (fuel : nat) (timeout : Z)
    (ts1 ts2 : list json) (m : Machine) :
  report_loop rec fuel timeout (ts1 ++ ts2) m
    = bindF (report_loop rec fuel timeout ts1)
            (fun _ => report_loop rec fuel timeout ts2) m.
Proof.
  revert m. induction ts1 as [|t ts1 IH]; intros m; [reflexivity|].
  cbn [app report_loop]. unfold bindF.
  destruct (report_visit rec fuel timeout t m) as [[m1 [e|u]]|]; try reflexivity.
  rewrite IH. reflexivity.
Qed.

(** X26. A reference without [_href] in the list of a report: the
    references before it are gone through, then [KeyError] is raised for
    that one before anything is sent for it; the references behind it are
    not looked at. *)
Theorem wait_for_report_bad_reference (fuel : nat) (timeout : Z)
    (response : option Response) (report : gmap string json)
    (before behind : list json) (d : list (string * json)) (m m1 : Machine) :
  from_report response = inr report ->
  report !! "spawned_tasks"%string = Some (JList (before ++ JDict d :: behind)) ->
  (list_to_map d : gmap string json) !! "_href"%string = None ->
  report_loop (wait_for_report fuel timeout) fuel timeout before m = Some (m1, inr tt) ->
  wait_for_report (S fuel) timeout response m = Some (m1, inl (KeyError "_href")).
Proof.
  intros Hf Hs Hd Hb. cbn [wait_for_report]. unfold bindF at 1, liftE, spawned_tasks.
  rewrite Hf, Hs. rewrite report_loop_app. unfold bindF at 1. rewrite Hb.
  cbn [report_loop]. unfold bindF at 1, report_visit, bindF at 1, lift, fetch, href.
  rewrite Hd. reflexivity.
Qed.

Lemma wait_for_reports_app (fuel : nat) (timeout : Z) (rs1 rs2 : list (option Response))
    (m : Machine) :
  wait_for_reports fuel timeout (rs1 ++ rs2) m
    = bindF (wait_for_reports fuel timeout rs1)
            (fun _ => wait_for_reports fuel timeout rs2) m.
Proof.
  revert m. induction rs1 as [|r rs1 IH]; intros m; [reflexivity|].
  cbn [app wait_for_reports]. unfold bindF.
  destruct (wait_for_report fuel timeout r m) as [[m1 [e|u]]|]; try reflexivity.
  rewrite IH. reflexivity.
Qed.

(** X27. [wait_for_reports] takes the reports in their order, each with the
    whole timeout, and stops at the first one whose wait raises: that
    exception is the result, the machine is as that wait left it, and the
    reports behind are not waited for. *)
Theorem wait_for_reports_first_failure (fuel : nat) (timeout : Z)
    (rs1 rs2 : list (option Response)) (r : option Response) (m m1 m2 : Machine)
    (e : exn) :
  wait_for_reports fuel timeout rs1 m = Some (m1, inr tt) ->
  wait_for_report fuel timeout r m1 = Some (m2, inl e) ->
  wait_for_reports fuel timeout (rs1 ++ r :: rs2) m = Some (m2, inl e).
Proof.
  intros H1 Hr. rewrite wait_for_reports_app. unfold bindF at 1. rewrite H1.
  cbn [wait_for_reports]. unfold bindF. rewrite Hr. reflexivity.
Qed.

End TaskMore.

(** ** More of the code on the test double *)

Module DoubleMore.
Import Double.

Lemma is_ok_tuple_all_witness :
  is_ok (set_last_response (RTuple (Some <$> [mkReply 200 JNull; mkReply 404 JNull])) pulp0)
    = inr false.
Proof.
  exact (is_ok_tuple_all
           (set_last_response (RTuple (Some <$> [mkReply 200 JNull; mkReply 404 JNull])) pulp0)
           [mkReply 200 JNull; mkReply 404 JNull] eq_refl).
Defined.

Lemma is_ok_tuple_first_offender_witness :
  is_ok (set_last_response
           (RTuple ((Some <$> [mkReply 200 JNull]) ++ Some (mkReply 404 JNull) :: [None]))
           pulp0) = inr false ∧
  is_ok (set_last_response
           (RTuple ((Some <$> [mkReply 200 JNull]) ++ None :: [Some (mkReply 404 JNull)]))
           pulp0) = inl AttributeError.
Proof.
  split.
  - exact (proj1 (is_ok_tuple_first_offender
                    (set_last_response
                       (RTuple ((Some <$> [mkReply 200 JNull])
                                ++ Some (mkReply 404 JNull) :: [None])) pulp0)
                    [mkReply 200 JNull] [None] eq_refl)
                 (mkReply 404 JNull) eq_refl eq_refl).
  - exact (proj2 (is_ok_tuple_first_offender
                    (set_last_response
                       (RTuple ((Some <$> [mkReply 200 JNull])
                                ++ None :: [Some (mkReply 404 JNull)])) pulp0)
                    [mkReply 200 JNull] [Some (mkReply 404 JNull)] eq_refl)
                 eq_refl eq_refl).
Defined.

Lemma send_sync_unchecked_witness :
  ∃ m', send (request "/nope") machine0 = (m', inr (Some (mkReply 404 JNull))) ∧
        is_ok (pulp m') = inr false.
Proof.
  destruct (send_sync_unchecked (request "/nope") machine0
              (serve server_A "http://pulp/nope" (Some false)).1 (mkReply 404 JNull)
              eq_refl eq_refl eq_refl)
    as (m' & E & _ & _ & _ & Hok).
  exists m'. split; [exact E | exact Hok].
Defined.

Lemma send_sync_transport_error_witness :
  ∃ m', @send flaky_transport (request "/down") machine_flaky
          = (m', inl (OtherError "ConnectionError")) ∧
        last_request (pulp m') = @QOne flaky_transport "http://pulp/down"%string ∧
        last_response (pulp m') = @RNone flaky_transport.
Proof.
  destruct (@send_sync_transport_error flaky_transport (request "/down") machine_flaky
              (flaky server_gone "http://pulp/down" (Some false)).1
              (OtherError "ConnectionError") eq_refl eq_refl)
    as (m' & E & _ & Hq & Hr & _).
  exists m'. split; [exact E|]. split; [exact Hq | exact Hr].
Defined.

Lemma asserting_send_witness :
  ∃ m', @asserting transport _ true (Some (fun r : reply => code r =? 404))
          (send (request "/nope")) machine0
          = (m', inr (Some (mkReply 404 JNull))) ∧
        _asserting (pulp m') = false.
Proof.
  destruct (@asserting_send transport true (Some (fun r : reply => code r =? 404))
              (request "/nope") machine0
              (serve server_A "http://pulp/nope" (Some false)).1 (mkReply 404 JNull)
              eq_refl eq_refl)
    as (m' & E & _ & Ha & _).
  exists m'. split; [exact E | exact Ha].
Defined.

Lemma async_asserting_witness :
  ∃ m' rs,
    async None [1; 0]%nat (send_all [request "/a"; request "/b"]) machine_asserting
      = (m', if forallb (check_function (pulp machine_asserting)) rs then inr tt
             else inl (NameError "preprequest")) ∧
    last_response (pulp m') = RTuple (Some <$> rs) ∧
    length rs = 2%nat ∧
    _async (pulp m') = false.
Proof.
  apply (async_asserting None [1; 0]%nat [request "/a"; request "/b"] machine_asserting).
  - reflexivity.
  - reflexivity.
  - apply perm_swap.
  - apply DoubleFacts.serve_answers.
Defined.

Lemma async_job_error_witness :
  ∃ m', @async flaky_transport None [0; 1; 2]%nat
          (@send_all flaky_transport [request "/ok"; request "/down"; request "/late"])
          machine_flaky
          = (m', inl (OtherError "ConnectionError")) ∧
        sent (world m') = ["http://pulp/ok"; "http://pulp/down"; "http://pulp/late"]%string ∧
        last_response (pulp m') = @RNone flaky_transport ∧
        _async (pulp m') = false.
Proof.
  destruct (@async_job_error flaky_transport None [0; 1; 2]%nat
              [request "/ok"; request "/down"; request "/late"] machine_flaky
              [0%nat] 1%nat [2%nat] "http://pulp/down"%string
              (flaky (flaky server_gone "http://pulp/ok" None).1 "http://pulp/down" None).1
              (OtherError "ConnectionError"))
    as (m' & E & Hw & _ & Hr & _ & Ha).
  - reflexivity.
  - reflexivity.
  - cbn. eexists; eexists. split; [reflexivity | exact I].
  - reflexivity.
  - reflexivity.
  - exists m'. split; [exact E|]. split; [rewrite Hw; reflexivity|].
    split; [exact Hr | exact Ha].
Defined.

Lemma async_empty_witness :
  ∃ m', async (Some 1000) [3; 1]%nat (ret tt) machine_asserting = (m', inr tt) ∧
        world m' = world machine_asserting ∧
        last_response (pulp m') = RTuple [].
Proof.
  destruct (async_empty (Some 1000) [3; 1]%nat machine_asserting eq_refl)
    as (m' & E & Hw & Hr & _).
  exists m'. split; [exact E|]. split; [exact Hw | exact Hr].
Defined.

Lemma pubkey_cached_witness :
  pubkey (pubkey machine_key).1 = ((pubkey machine_key).1, inr tt) ∧
  _pubkey (pulp (pubkey machine_key).1) = Some tt.
Proof.
  apply (pubkey_cached machine_key (pubkey machine_key).1 tt). vm_compute. reflexivity.
Defined.

Lemma pubkey_fetch_witness :
  (∃ m', pubkey machine_key = (m', inr tt) ∧
         _pubkey (pulp m') = Some tt ∧
         _asserting (pulp m') = false) ∧
  (∃ m', pubkey (mkMachine pulp0 server_empty_key)
           = (m', inl (AssertionError
                         (empty_content_message (mkReply 200 (JStr ""))))) ∧
         _asserting (pulp m') = false).
Proof.
  split.
  - destruct (pubkey_fetch machine_key
                (serve server_key "http://pulp/pulp/static/rsa_pub.key" (Some false)).1
                (mkReply 200 (JStr "-----BEGIN PUBLIC KEY-----")))
      as (m' & E & _ & Ha & _ & Hkept & _).
    + reflexivity.
    + reflexivity.
    + vm_compute. reflexivity.
    + exists m'. split; [exact E|]. split; [|exact Ha].
      apply Hkept. rewrite E. reflexivity.
  - destruct (pubkey_fetch (mkMachine pulp0 server_empty_key)
                (serve server_empty_key "http://pulp/pulp/static/rsa_pub.key" (Some false)).1
                (mkReply 200 (JStr "")))
      as (m' & E & _ & Ha & _).
    + reflexivity.
    + reflexivity.
    + vm_compute. reflexivity.
    + exists m'. split; [exact E | exact Ha].
Defined.

Lemma pubkey_in_batch_witness :
  ∃ m', pubkey machine_open = (m', inl AttributeError) ∧
        batch_open m' ["http://pulp/a"; "http://pulp/pulp/static/rsa_pub.key"]%string.
Proof.
  destruct (pubkey_in_batch machine_open ["http://pulp/a"%string] eq_refl)
    as (m' & E & _ & Hopen & _); [split; reflexivity|].
  exists m'. split; [exact E | exact Hopen].
Defined.

Lemma ResponseLike_eq_status_witness :
  ResponseLike.truth
    (ResponseLike.eq (ResponseLike.mk 200 None) (ResponseLike.mkOperand (Some 404) None))
  = true ↔ Some 404 = Some 200.
Proof.
  exact (proj1 (ResponseLike_eq_status (ResponseLike.mk 200 None)
                  (ResponseLike.mkOperand (Some 404) None) eq_refl)).
Defined.

Lemma ResponseLike_eq_text_witness :
  ResponseLike.truth
    (ResponseLike.eq (ResponseLike.mk 200 (Some "ok"%string))
                     (ResponseLike.mkOperand (Some 404) (Some "Not Found"%string)))
  = true.
Proof.
  apply (proj2 (ResponseLike_eq_text (ResponseLike.mk 200 (Some "ok"%string)) "ok"%string
                  (ResponseLike.mkOperand (Some 404) (Some "Not Found"%string)) eq_refl)).
  split; eexists; reflexivity.
Defined.

Lemma normalize_url_scheme_witness :
  ∃ tail,
    normalize_url "https:////host//pulp///api/"%string
      = String.append "https://" tail ∧
    two_slashes (String.append "/" tail) = false ∧
    unslashed tail = "hostpulpapi"%string.
Proof.
  exact (normalize_url_scheme "https" "//host//pulp///api/" eq_refl).
Defined.

Lemma wait_negative_timeout_witness :
  wait 1 (-1) 500 task_A machine0
    = Some (machine0, task_A, inl (TaskTimeoutError (-1) task_A)).
Proof. apply (wait_negative_timeout 0 (-1) 500 task_A machine0). lia. Defined.

Lemma wait_first_reload_decides_witness :
  ∃ m' self', wait 1 1000 500 task_C_error machine_tree = Some (m', self', inr tt) ∧
              data self' !! "state"%string = Some (JStr "finished").
Proof.
  exists (reload task_C_error
            (set_world (time_sleep 500 (world machine_tree)) machine_tree)).1,
         (task_of [("task_id", JStr "C"); ("state", JStr "finished"); ("error", JNull)]%string).
  split; [|reflexivity].
  rewrite (wait_first_reload_decides 0 1000 500 task_C_error
             (task_of [("task_id", JStr "C"); ("state", JStr "finished");
                       ("error", JNull)]%string)
             machine_tree
             (reload task_C_error
                (set_world (time_sleep 500 (world machine_tree)) machine_tree)).1
             (JStr "finished")).
  - reflexivity.
  - lia.
  - lia.
  - vm_compute. reflexivity.
  - reflexivity.
  - reflexivity.
Defined.

Lemma wait_cycle_bound_witness :
  ∃ out, wait 4 1000 500 task_A machine_running = Some out.
Proof.
  apply (wait_cycle_bound 3 1000 500 task_A machine_running).
  - lia.
  - exact DoubleFacts.sleep_clock.
  - exact DoubleFacts.reload_clock.
  - lia.
Defined.

Lemma wait_timeout_not_early_witness :
  let out := default (machine_running, task_A, inr tt)
               (wait 10 1000 500 task_A machine_running) in
  out.2 = inl (TaskTimeoutError 1000 out.1.2) ∧
  time_time (world machine_running) + 1000 < time_time (world out.1.1).
Proof.
  intros out. split; [vm_compute; reflexivity|].
  apply (wait_timeout_not_early 10 1000 500 task_A out.1.2 machine_running out.1.1
           1000 out.1.2).
  vm_compute. reflexivity.
Defined.

Lemma wait_for_response_first_failure_witness :
  ∃ m2 e,
    wait_for_response 5 1000 (Some several) machine_tree_failing = Some (m2, inl e) ∧
    sent (world m2)
      = ["http://pulp/tasks/C"; "http://pulp/tasks/B"; "http://pulp/tasks/B"]%string.
Proof.
  pose (tC := task_of [("task_id", JStr "C"); ("state", JStr "running");
                       ("error", JNull)]%string).
  pose (tB := task_of [("task_id", JStr "B"); ("state", JStr "running");
                       ("error", JNull)]%string).
  pose (tA := task_of [("task_id", JStr "A"); ("state", JStr "running");
                       ("error", JNull)]%string).
  pose (m1 := (default (machine_tree_failing, inr tt)
                 (wait_each 5 1000 [tC] machine_tree_failing)).1).
  pose (w := default (m1, tB, inr tt) (wait 5 1000 default_frequency tB m1)).
  pose (e := match w.2 with inl e => e | inr _ => TypeError end).
  exists w.1.1, e. split.
  - apply (@wait_for_response_first_failure transport items 5 1000 (Some several) [tC] [tA] tB w.1.2
             machine_tree_failing m1 w.1.1 e).
    + reflexivity.
    + vm_compute. reflexivity.
    + vm_compute. reflexivity.
  - vm_compute. reflexivity.
Defined.

Lemma wait_for_report_bad_reference_witness :
  ∃ m1,
    wait_for_report 3 300000 (Some report_bad) machine_tree
      = Some (m1, inl (KeyError "_href")) ∧
    sent (world m1) = replicate 3 "http://pulp/tasks/C"%string.
Proof.
  pose (m1 := (default (machine_tree, inr tt)
                 (report_loop (wait_for_report 2 300000) 2 300000 [ref "C"]
                    machine_tree)).1).
  exists m1. split.
  - apply (@wait_for_report_bad_reference transport items 2 300000 (Some report_bad)
             (list_to_map [("spawned_tasks"%string,
                            JList [ref "C"; JDict [("task_id"%string, JStr "X")]; ref "A"])])
             [ref "C"] [ref "A"] [("task_id"%string, JStr "X")] machine_tree m1).
    + reflexivity.
    + vm_compute. reflexivity.
    + vm_compute. reflexivity.
    + vm_compute. reflexivity.
  - vm_compute. reflexivity.
Defined.

Lemma wait_for_reports_first_failure_witness :
  ∃ m2 e,
    wait_for_reports 3 300000
      [Some (report ["C"%string]); Some (report ["B"%string]); Some (report ["A"%string])]
      machine_tree_failing = Some (m2, inl e) ∧
    sent (world m2)
      = replicate 3 "http://pulp/tasks/C"%string ++ replicate 2 "http://pulp/tasks/B"%string.
Proof.
  pose (m1 := (default (machine_tree_failing, inr tt)
                 (wait_for_reports 3 300000 [Some (report ["C"%string])]
                    machine_tree_failing)).1).
  pose (w := default (m1, inr tt)
               (wait_for_report 3 300000 (Some (report ["B"%string])) m1)).
  pose (e := match w.2 with inl e => e | inr _ => TypeError end).
  exists w.1, e. split.
  - apply (@wait_for_reports_first_failure transport items 3 300000 [Some (report ["C"%string])]
             [Some (report ["A"%string])] (Some (report ["B"%string]))
             machine_tree_failing m1 w.1 e).
    + vm_compute. reflexivity.
    + vm_compute. reflexivity.
  - vm_compute. reflexivity.
Defined.

End DoubleMore.

(** ** The tree-wait on a server of jobs *)

Module JobTreeFacts.
Import Double.



Lemma job_script_agree (jobs : list job) (left left' : job -> nat) :
  (∀ j, j ∈ jobs -> left' j = left j) ->
  job_script left' <$> jobs = job_script left <$> jobs.
Proof.
  intros Hag. apply Forall_fmap_ext_1. apply Forall_forall. intros j Hj.
  unfold job_script. rewrite (Hag j Hj). reflexivity.
Qed.







Section Table.
Variable table : list job.
Hypothesis table_ids : NoDup (job_id <$> table).

Lemma serving_agree (left left' : job -> nat) (m : Machine) :
  (∀ j, j ∈ table -> left' j = left j) -> serving table left m -> serving table left' m.
Proof.
  intros Hag (Ha & Has & Hu & Hc & Hs). repeat split; try assumption.
  rewrite Hs. symmetry. apply job_script_agree. exact Hag.
Qed.




Variable timeout : Z.
Hypothesis timeout_pos : 0 <= timeout.
Hypothesis timeout_long : ∀ j, j ∈ table -> Z.of_nat (job_polls j) * 501 <= timeout.





Lemma tree_requests_app (a b : list job) :
  tree_requests (a ++ b)
    = match (tree_requests a).2 with
      | Some _ => tree_requests a
      | None => ((tree_requests a).1 ++ (tree_requests b).1, (tree_requests b).2)
      end.
Proof.
  induction a as [|j a IH]; cbn [app tree_requests].
  - destruct (tree_requests b); reflexivity.
  - destruct (job_failed j); [reflexivity|]. rewrite IH.
    destruct (tree_requests a) as [la [x|]]; cbn [fst snd]; [reflexivity|].
    rewrite app_assoc. reflexivity.
Qed.






End Table.



(** [tree_requests] read out: when no job failed, every job is asked about,
    in the order of [all_jobs]; otherwise the jobs before the first that
    failed are, and that job up to the poll that shows the failure. *)
Lemma tree_requests_all_ended (jobs : list job) :
  Forall (fun j => job_failed j = false) jobs ->
  tree_requests jobs
    = (flat_map (fun j => replicate (1 + job_cycles j + 1) (job_url (job_id j))) jobs, None).
Proof.
  induction 1 as [|j jobs Hj _ IH]; [reflexivity|].
  cbn [tree_requests flat_map]. rewrite Hj, IH. reflexivity.
Qed.

Lemma tree_requests_first_failure (pre : list job) (j : job) (post : list job) :
  Forall (fun j => job_failed j = false) pre -> job_failed j = true ->
  tree_requests (pre ++ j :: post)
    = (flat_map (fun j => replicate (1 + job_cycles j + 1) (job_url (job_id j))) pre
         ++ replicate (1 + job_cycles j) (job_url (job_id j)),
       Some j).
Proof.
  intros Hpre Hj. rewrite tree_requests_app, (tree_requests_all_ended pre Hpre).
  cbn [fst snd tree_requests]. rewrite Hj. reflexivity.
Qed.



(** A tree of two levels in which every job ends well: A, which runs at
    first and lists what it spawned once it has ended, B, which is polled
    three times, D and C. *)
Example report_tree_walk :
  seen (wait_for_report 6 300000 (Some (report ["A"; "C"]%string))
          (mkMachine pulp0
             (job_server [Job "A" 1 false [Job "B" 3 false []; Job "D" 0 false []];
                          Job "C" 0 false []])))
  = Some (replicate 3 "http://pulp/tasks/A"%string
          ++ replicate 5 "http://pulp/tasks/B"%string
          ++ replicate 3 "http://pulp/tasks/D"%string
          ++ replicate 3 "http://pulp/tasks/C"%string,
          inr tt).
Proof. vm_compute. reflexivity. Qed.

End JobTreeFacts.
